(** * Present-proof 2.0 presentation request: attachment correlation,
      per-format validation, content resolution and signature encoding.

    Shallow embedding of
    [aries_cloudagent/protocols/present_proof/v2_0/messages/pres_request.py]:
    the message class [V20PresRequest] (methods [attachment] and
    [add_signature]) and the schema validator
    [V20PresRequestSchema.validate_fields] with its local helper
    [get_attach_by_id]. *)

From Stdlib Require Import List String Ascii NArith ZArith Lia Bool.
From Stdlib.Strings Require Import Byte.
Import ListNotations.

Local Open Scope string_scope.
Local Open Scope list_scope.

(** ** Python's [base64] module (standard alphabet, RFC 4648 section 4)

    [add_signature] calls [base64.b64encode(sign).decode("utf-8")].  The
    encoder is the standard library's; it is written out here the way
    [binascii] computes it: three octets are regrouped with shifts and masks
    into four 6-bit indices into the alphabet table, and a final group of one
    or two octets is padded with [=]. *)
Module Base64.

Local Open Scope N_scope.

(** The alphabet table, as bytes. *)
Definition table_b2a : list byte :=
  list_byte_of_string
    "ABCDEFGHIJKLMNOPQRSTUVWXYZabcdefghijklmnopqrstuvwxyz0123456789+/".

Definition pad : byte := "="%byte.

(** Index into the alphabet table. *)
Definition b2a (n : N) : byte := nth (N.to_nat n) table_b2a pad.

(** Inverse table lookup: position of a byte in the alphabet, if any. *)
Fixpoint index_of (c : byte) (tbl : list byte) (i : N) : option N :=
  match tbl with
  | [] => None
  | x :: tbl' => if Byte.eqb x c then Some i else index_of c tbl' (N.succ i)
  end.

Definition a2b (c : byte) : option N := index_of c table_b2a 0.

(** The four 6-bit groups of a 24-bit group [b1 b2 b3]. *)
Definition sextet1 (b1 : N) : N := N.shiftr b1 2.
Definition sextet2 (b1 b2 : N) : N :=
  N.lor (N.shiftl (N.land b1 3) 4) (N.shiftr b2 4).
Definition sextet3 (b2 b3 : N) : N :=
  N.lor (N.shiftl (N.land b2 15) 2) (N.shiftr b3 6).
Definition sextet4 (b3 : N) : N := N.land b3 63.

(** The three octets carried by four 6-bit groups. *)
Definition octet1 (s1 s2 : N) : N := N.lor (N.shiftl s1 2) (N.shiftr s2 4).
Definition octet2 (s2 s3 : N) : N :=
  N.lor (N.shiftl (N.land s2 15) 4) (N.shiftr s3 2).
Definition octet3 (s3 s4 : N) : N := N.lor (N.shiftl (N.land s3 3) 6) s4.

(** [base64.b64encode]: bytes in, ASCII bytes out. *)
Fixpoint b64encode (s : list byte) : list byte :=
  match s with
  | [] => []
  | [b1] =>
      let n1 := Byte.to_N b1 in
      [b2a (sextet1 n1); b2a (sextet2 n1 0); pad; pad]
  | [b1; b2] =>
      let n1 := Byte.to_N b1 in
      let n2 := Byte.to_N b2 in
      [b2a (sextet1 n1); b2a (sextet2 n1 n2); b2a (sextet3 n2 0); pad]
  | b1 :: b2 :: b3 :: rest =>
      let n1 := Byte.to_N b1 in
      let n2 := Byte.to_N b2 in
      let n3 := Byte.to_N b3 in
      b2a (sextet1 n1) :: b2a (sextet2 n1 n2) ::
      b2a (sextet3 n2 n3) :: b2a (sextet4 n3) :: b64encode rest
  end.

(** [base64.b64decode] on canonical input (what [validate=True] accepts):
    groups of four alphabet characters, the last group possibly ending in one
    or two [=].  Anything else is [None] (Python raises [binascii.Error], or
    with the default [validate=False] first discards the foreign
    characters). *)
Fixpoint b64decode (s : list byte) : option (list byte) :=
  match s with
  | [] => Some []
  | c1 :: c2 :: c3 :: c4 :: rest =>
      match a2b c1, a2b c2 with
      | Some s1, Some s2 =>
          if Byte.eqb c4 pad then
            match rest with
            | [] =>
                if Byte.eqb c3 pad then
                  option_map (fun o1 => [o1]) (Byte.of_N (octet1 s1 s2))
                else
                  match a2b c3 with
                  | Some s3 =>
                      match Byte.of_N (octet1 s1 s2),
                            Byte.of_N (octet2 s2 s3) with
                      | Some o1, Some o2 => Some [o1; o2]
                      | _, _ => None
                      end
                  | None => None
                  end
            | _ :: _ => None
            end
          else
            match a2b c3, a2b c4 with
            | Some s3, Some s4 =>
                match Byte.of_N (octet1 s1 s2), Byte.of_N (octet2 s2 s3),
                      Byte.of_N (octet3 s3 s4), b64decode rest with
                | Some o1, Some o2, Some o3, Some tl => Some (o1 :: o2 :: o3 :: tl)
                | _, _, _, _ => None
                end
            | _, _ => None
            end
      | _, _ => None
      end
  | _ => None
  end.

(** What the inverse table must satisfy at index [n]: it maps the entry back
    to [n], and the entry is an ASCII character other than the padding. *)
Definition table_check (n : N) : bool :=
  match a2b (b2a n) with
  | Some m =>
      N.eqb m n && negb (Byte.eqb (b2a n) pad) && N.ltb (Byte.to_N (b2a n)) 128
  | None => false
  end.

(** [bytes.decode("utf-8")] on ASCII-only input, which is all the encoder
    produces: every byte is the code point of the same value. *)
Definition decode_utf8 (s : list byte) : string := string_of_list_byte s.

(** [str.encode("utf-8")] on ASCII-only text. *)
Definition encode_utf8 (s : string) : list byte := list_byte_of_string s.

End Base64.

(** ** Collaborators of the message module

    [V20PresFormat] (module [pres_format]) and [AttachDecorator] (module
    [attach_decorator]) are imported by [pres_request.py]; the request module
    reads two fields of each. *)

(** A format descriptor: [fmt.attach_id] and [fmt.format]. *)
Record V20PresFormat : Type := {
  attach_id : string;
  format : string
}.

(** An attachment: [atch.ident] and [atch.content]; the decoded payload is
    opaque to this module.  [content] is a property of [attach_decorator]
    that decodes the payload when it is read; an attachment here carries its
    decoded content, so the development is about messages whose contents
    decode. *)
Record AttachDecorator (Content : Type) : Type := {
  ident : string;
  content : Content
}.
Arguments ident {Content} _.
Arguments content {Content} _.

(** The format registry [V20PresFormat.Format], taken as an interface: the
    enumeration of supported formats, the classifier [Format.get] mapping a
    format identifier to a member or to nothing, and each member's
    [validate_fields(message_type, attachment_data)], which either returns or
    raises a [ValidationError] with some reason.  Members are enumeration
    values, so identity ([is]) is decidable equality.  [PRES_20_REQUEST] is
    the message type constant of [message_types]. *)
Class FormatRegistry : Type := {
  Format : Type;
  Content : Type;
  Format_eq_dec : forall a b : Format, {a = b} + {a <> b};
  Format_get : string -> option Format;
  Format_validate_fields : Format -> string -> Content -> option string;
  PRES_20_REQUEST : string
}.

Section Registry.

Context {registry : FormatRegistry}.

(** The attachments of a message carry the registry's content type. *)
Definition Attach : Type := AttachDecorator Content.

(** [a is b] on registry members. *)
Definition Format_is (a b : Format) : bool :=
  if Format_eq_dec a b then true else false.

(** Modelled from the spec: [V20PresFormat.Format.get_attachment_data], the
    attachment-data extraction helper of [pres_format], is not part of the
    request module.  Section 4.3: "return the decoded content of the
    attachment bound to the first FormatDescriptor whose formatIdentifier ==
    targetFormat; if none matches, return none", a descriptor being bound to
    the first attachment that carries its identifier (section 4.1,
    tie-break policy). *)
Definition get_attachment_data (self : Format) (formats : list V20PresFormat)
    (attachments : list Attach) : option Content :=
  match find (fun fmt => match Format_get (format fmt) with
                         | Some f => Format_is f self
                         | None => false
                         end) formats with
  | Some fmt =>
      option_map content
        (find (fun atch => String.eqb (ident atch) (attach_id fmt)) attachments)
  | None => None
  end.

(** ** The message class [V20PresRequest] *)

(** The attributes set by [__init__]; [_id] is the message id kept by the
    base class, and [signature] holds text, as [add_signature] stores it and
    as the schema declares it. *)
Record V20PresRequest : Type := {
  _id : string;
  comment : option string;
  verifier_did : option string;
  will_confirm : bool;
  formats : list V20PresFormat;
  signature : option string;
  request_presentations_attach : list Attach
}.

(** [V20PresRequest.__init__]: [will_confirm or False], and both sequences
    copied, with [None] standing for the empty list. *)
Definition V20PresRequest_init (id : string) (comment' verifier_did' : option string)
    (will_confirm' : option bool) (formats' : option (list V20PresFormat))
    (signature' : option string)
    (request_presentations_attach' : option (list Attach)) : V20PresRequest :=
  {| _id := id;
     comment := comment';
     verifier_did := verifier_did';
     will_confirm := match will_confirm' with Some b => b | None => false end;
     formats := match formats' with Some l => l | None => [] end;
     signature := signature';
     request_presentations_attach :=
       match request_presentations_attach' with Some l => l | None => [] end |}.

(** Truth value of an optional registry member ([lambda ff: ff]); a member
    itself is always true. *)
Definition truthy {A : Type} (o : option A) : bool :=
  match o with Some _ => true | None => false end.

(** [next(iterator, None)] over a list of optional members. *)
Definition next_or_None {A : Type} (l : list (option A)) : option A :=
  match l with
  | x :: _ => x
  | [] => None
  end.

(** [V20PresRequest.attachment(fmt=None)]. *)
Definition attachment (self : V20PresRequest) (fmt : option Format)
    : option Content :=
  let target_format :=
    match fmt with
    | Some f => Some f
    | None =>
        next_or_None
          (filter truthy (map (fun f => Format_get (format f)) (formats self)))
    end in
  match target_format with
  | Some tf =>
      get_attachment_data tf (formats self) (request_presentations_attach self)
  | None => None
  end.

(** [V20PresRequest.add_signature(sign)]: the one assignment is to
    [self.signature]. *)
Definition add_signature (self : V20PresRequest) (sign : list byte)
    : V20PresRequest :=
  {| _id := _id self;
     comment := comment self;
     verifier_did := verifier_did self;
     will_confirm := will_confirm self;
     formats := formats self;
     signature := Some (Base64.decode_utf8 (Base64.b64encode sign));
     request_presentations_attach := request_presentations_attach self |}.

(** Reading a stored signature back: [base64.b64decode(self.signature)]. *)
Definition signature_bytes (self : V20PresRequest) : option (list byte) :=
  match signature self with
  | Some s => Base64.b64decode (Base64.encode_utf8 s)
  | None => None
  end.

(** ** The schema validator [V20PresRequestSchema.validate_fields] *)

(** What the validator can raise.  [ValidationError msg] is raised by the
    schema itself (the two [raise] statements of [validate_fields]);
    [FormatValidationError pf reason] is the [ValidationError] that escapes
    from [pf.validate_fields], kept apart by its origin. *)
Inductive exn : Type :=
| ValidationError (msg : string)
| FormatValidationError (pf : Format) (reason : string).

Inductive result (A : Type) : Type :=
| Ok (a : A)
| Raise (e : exn).
Arguments Ok {A} _.
Arguments Raise {A} _.

(** The calls the validator makes, in program order: every call of
    [get_attach_by_id] and every call into a format's [validate_fields]. *)
Inductive event : Type :=
| Call_get_attach_by_id (attach_id : string)
| Call_validate_fields (pf : Format) (message_type : string) (c : Content).

(** Computations that append to the call log and may raise. *)
Definition M (A : Type) : Type := list event -> list event * result A.

Definition ret {A : Type} (a : A) : M A := fun log => (log, Ok a).

Definition raise {A : Type} (e : exn) : M A := fun log => (log, Raise e).

Definition bind {A B : Type} (m : M A) (k : A -> M B) : M B :=
  fun log =>
    match m log with
    | (log', Ok a) => k a log'
    | (log', Raise e) => (log', Raise e)
    end.

Definition emit (ev : event) : M unit := fun log => (log ++ [ev], Ok tt).

Definition lift {A : Type} (r : result A) : M A := fun log => (log, r).

Notation "x <- m ;; k" := (bind m (fun x => k))
  (at level 61, m at next level, right associativity).
Notation "m ;;; k" := (bind m (fun _ => k))
  (at level 61, right associativity).

Definition length_mismatch_msg : string := "Formats/attachments length mismatch".

Definition no_attachment_msg (attach_id : string) : string :=
  "No attachment for attach_id " ++ attach_id ++ " in formats".

(** The local function [get_attach_by_id], closed over [attachments]. *)
Fixpoint get_attach_by_id (attachments : list Attach) (attach_id : string)
    : result Attach :=
  match attachments with
  | [] => Raise (ValidationError (no_attachment_msg attach_id))
  | atch :: rest =>
      if String.eqb (ident atch) attach_id then Ok atch
      else get_attach_by_id rest attach_id
  end.

(** [pres_format.validate_fields(PRES_20_REQUEST, atch.content)]. *)
Definition call_validate_fields (pf : Format) (c : Content) : M unit :=
  emit (Call_validate_fields pf PRES_20_REQUEST c) ;;;
  match Format_validate_fields pf PRES_20_REQUEST c with
  | Some reason => raise (FormatValidationError pf reason)
  | None => ret tt
  end.

(** The body of [for fmt in formats]. *)
Definition validate_one (attachments : list Attach) (fmt : V20PresFormat)
    : M unit :=
  emit (Call_get_attach_by_id (attach_id fmt)) ;;;
  atch <- lift (get_attach_by_id attachments (attach_id fmt)) ;;
  match Format_get (format fmt) with
  | Some pres_format => call_validate_fields pres_format (content atch)
  | None => ret tt
  end.

Fixpoint validate_loop (attachments : list Attach) (formats : list V20PresFormat)
    : M unit :=
  match formats with
  | [] => ret tt
  | fmt :: rest =>
      validate_one attachments fmt ;;; validate_loop attachments rest
  end.

(** The [data] mapping handed to the validator; [None] is what
    [data.get(key)] returns for a missing key or a stored [None]. *)
Record SchemaData : Type := {
  data_formats : option (list V20PresFormat);
  data_request_presentations_attach : option (list Attach)
}.

(** [x or []]. *)
Definition or_empty {A : Type} (x : option (list A)) : list A :=
  match x with
  | Some (a :: l) => a :: l
  | _ => []
  end.

Definition validate_fields (data : SchemaData) : M unit :=
  let formats := or_empty (data_formats data) in
  let attachments := or_empty (data_request_presentations_attach data) in
  if negb (Nat.eqb (List.length formats) (List.length attachments)) then
    raise (ValidationError length_mismatch_msg)
  else
    validate_loop attachments formats.

(** Running the validator from an empty call log. *)
Definition run_validate (data : SchemaData) : list event * result unit :=
  validate_fields data [].

End Registry.

Arguments Ok {registry A} _.
Arguments Raise {registry A} _.
Arguments ValidationError {registry} msg.
Arguments FormatValidationError {registry} pf reason.
Arguments Call_get_attach_by_id {registry} attach_id.
Arguments Call_validate_fields {registry} pf message_type c.

(** ** Reading the call log *)

Section Log.

Context {registry : FormatRegistry}.

(** The identifiers looked up, in program order. *)
Definition lookups (log : list event) : list string :=
  flat_map (fun ev => match ev with
                      | Call_get_attach_by_id i => [i]
                      | Call_validate_fields _ _ _ => []
                      end) log.

(** The (format, content) pairs handed to per-format validators, in program
    order. *)
Definition dispatched (log : list event) : list (Format * Content) :=
  flat_map (fun ev => match ev with
                      | Call_get_attach_by_id _ => []
                      | Call_validate_fields pf _ c => [(pf, c)]
                      end) log.

(** The dispatches a full pass over [formats] owes: one per descriptor whose
    format the registry knows, with the content of the attachment the
    descriptor resolves to. *)
Definition known_dispatches (attachments : list Attach)
    (formats : list V20PresFormat) : list (Format * Content) :=
  flat_map (fun fmt =>
              match Format_get (format fmt),
                    get_attach_by_id attachments (attach_id fmt) with
              | Some pf, Ok atch => [(pf, content atch)]
              | _, _ => []
              end) formats.

(** The number of attachments carrying a given identifier. *)
Definition count_ident (attachments : list Attach) (i : string) : nat :=
  List.length (filter (fun atch => String.eqb (ident atch) i) attachments).

(** A computation is [local] when it only appends to the log it is given and
    its result does not depend on that log. *)
Definition local {A : Type} (m : M A) : Prop :=
  forall log, m log = (log ++ fst (m []), snd (m [])).

(** What one iteration of the loop does, by cases: the log it leaves and its
    result. *)
Definition validate_one_cases (attachments : list Attach) (fmt : V20PresFormat)
    (log : list event) : list event * result unit :=
  let looked_up := log ++ [Call_get_attach_by_id (attach_id fmt)] in
  match get_attach_by_id attachments (attach_id fmt) with
  | Raise e => (looked_up, Raise e)
  | Ok atch =>
      match Format_get (format fmt) with
      | None => (looked_up, Ok tt)
      | Some pf =>
          (looked_up ++ [Call_validate_fields pf PRES_20_REQUEST (content atch)],
           match Format_validate_fields pf PRES_20_REQUEST (content atch) with
           | Some reason => Raise (FormatValidationError pf reason)
           | None => Ok tt
           end)
      end
  end.

End Log.

(** ** A concrete registry

    One registered format family, [known/], whose validator requires the key
    [name] in the attachment content; contents are key/value lists. *)
Module Demo.

Inductive member : Type := KNOWN.

Definition member_eq_dec (a b : member) : {a = b} + {a <> b} :=
  match a, b with
  | KNOWN, KNOWN => left eq_refl
  end.

Definition payload : Type := list (string * string).

Definition has_key (k : string) (c : payload) : bool :=
  existsb (fun kv => String.eqb (fst kv) k) c.

Definition member_get (label : string) : option member :=
  if String.prefix "known/" label then Some KNOWN else None.

Definition member_validate_fields (pf : member) (message_type : string)
    (c : payload) : option string :=
  if has_key "name" c then None else Some "Missing required key name".

#[global] Instance registry : FormatRegistry := {|
  Format := member;
  Content := payload;
  Format_eq_dec := member_eq_dec;
  Format_get := member_get;
  Format_validate_fields := member_validate_fields;
  PRES_20_REQUEST := "present-proof/2.0/request-presentation"
|}.

Definition atch (i : string) (c : payload) : Attach :=
  {| ident := i; content := c |}.

Definition fmt (i f : string) : V20PresFormat :=
  {| attach_id := i; format := f |}.

Definition data (fs : list V20PresFormat) (atts : list Attach) : SchemaData :=
  {| data_formats := Some fs; data_request_presentations_attach := Some atts |}.

Definition request (fs : list V20PresFormat) (atts : list Attach)
    : V20PresRequest :=
  V20PresRequest_init "req-1" (Some "please present") None None (Some fs) None
    (Some atts).

Definition good : payload := [("name", "alice")].
Definition other : payload := [("name", "bob")].
Definition bad : payload := [("age", "7")].

(** An unknown format listed before a known one. *)
Definition fs_mixed : list V20PresFormat :=
  [fmt "a1" "unknown/1.0"; fmt "a2" "known/1.0"].
Definition atts_mixed : list Attach := [atch "a1" bad; atch "a2" good].

(** Two attachments under one identifier. *)
Definition fs_dup : list V20PresFormat :=
  [fmt "a1" "known/1.0"; fmt "a1" "unknown/1.0"].
Definition atts_dup : list Attach := [atch "a1" good; atch "a1" other].

(** A rejected attachment ahead of a descriptor with no attachment. *)
Definition fs_rejected_then_missing : list V20PresFormat :=
  [fmt "a1" "known/1.0"; fmt "zz" "known/1.0"].
Definition atts_rejected_then_missing : list Attach :=
  [atch "a1" bad; atch "a2" good].

Definition data_rejected_then_missing : SchemaData :=
  data fs_rejected_then_missing atts_rejected_then_missing.

(** A single descriptor of a known format whose attachment is missing. *)
Definition data_known_missing : SchemaData :=
  data [fmt "a1" "known/1.0"] [atch "a2" good].

(** An accepted attachment ahead of a descriptor with no attachment. *)
Definition fs_accepted_then_missing : list V20PresFormat :=
  [fmt "a1" "known/1.0"; fmt "zz" "known/1.0"; fmt "a2" "known/1.0"].
Definition atts_accepted_then_missing : list Attach :=
  [atch "a1" good; atch "a2" good; atch "a3" bad].

(** A rejected content ahead of a descriptor that resolves. *)
Definition fs_rejected_first : list V20PresFormat :=
  [fmt "a1" "known/1.0"; fmt "a2" "known/1.0"].
Definition atts_rejected_first : list Attach :=
  [atch "a1" bad; atch "a2" good].
Definition data_rejected_first : SchemaData :=
  data fs_rejected_first atts_rejected_first.

End Demo.

(** ** Message objects and the calls a run may make *)

Section Envelope.

Context {registry : FormatRegistry}.

(** The [data] a message's two sequences are validated from. *)
Definition schema_data_of (self : V20PresRequest) : SchemaData :=
  {| data_formats := Some (formats self);
     data_request_presentations_attach :=
       Some (request_presentations_attach self) |}.

(** A call is accounted for by the message when it is the lookup of some
    descriptor's [attach_id], or a validator call for a descriptor of a known
    format, with the request message type and the content of the attachment
    that the descriptor's [attach_id] resolves to. *)
Definition accounted_for (attachments : list Attach)
    (formats : list V20PresFormat) (ev : event) : Prop :=
  match ev with
  | Call_get_attach_by_id i => exists fmt, In fmt formats /\ attach_id fmt = i
  | Call_validate_fields pf message_type c =>
      message_type = PRES_20_REQUEST /\
      exists fmt atch,
        In fmt formats /\ Format_get (format fmt) = Some pf /\
        get_attach_by_id attachments (attach_id fmt) = Ok atch /\
        content atch = c
  end.

(** A descriptor passes when it resolves to an attachment and, if its format
    is known, that format's validator accepts the attachment's content. *)
Definition passes (attachments : list Attach) (fmt : V20PresFormat) : Prop :=
  exists atch,
    get_attach_by_id attachments (attach_id fmt) = Ok atch /\
    forall pf, Format_get (format fmt) = Some pf ->
      Format_validate_fields pf PRES_20_REQUEST (content atch) = None.

(** A descriptor's content is accepted when, if the descriptor resolves and
    its format is known, that format's validator accepts the content of the
    attachment it resolves to. *)
Definition accepted (attachments : list Attach) (fmt : V20PresFormat) : Prop :=
  forall atch pf,
    get_attach_by_id attachments (attach_id fmt) = Ok atch ->
    Format_get (format fmt) = Some pf ->
    Format_validate_fields pf PRES_20_REQUEST (content atch) = None.

End Envelope.

(** ** The validator over a registry with state

    [V20PresFormat.Format.get] and [pres_format.validate_fields] are calls
    into another module, reached through a global.  Such a call can read and
    write the state of the process (what is registered, what a handler has
    cached or counted).  Here that state is explicit: every call into the
    registry takes the store and returns the store it leaves, together with
    its answer.  The schema code itself has no access to the store; it only
    passes it from one call to the next. *)
Class RegistryState (registry : FormatRegistry) : Type := {
  Store : Type;
  Format_get_in : string -> Store -> Store * option Format;
  Format_validate_fields_in :
    Format -> string -> Content -> Store -> Store * option string
}.

Section Stateful.

Context {registry : FormatRegistry} {state : RegistryState registry}.

(** Computations over the store that may raise. *)
Definition ST (A : Type) : Type := Store -> Store * result A.

Definition st_ret {A : Type} (a : A) : ST A := fun s => (s, Ok a).

Definition st_lift {A : Type} (r : result A) : ST A := fun s => (s, r).

Definition st_bind {A B : Type} (m : ST A) (k : A -> ST B) : ST B :=
  fun s =>
    match m s with
    | (s', Ok a) => k a s'
    | (s', Raise e) => (s', Raise e)
    end.

(** [V20PresFormat.Format.get(label)]. *)
Definition call_Format_get_in (label : string) : ST (option Format) :=
  fun s => (fst (Format_get_in label s), Ok (snd (Format_get_in label s))).

(** [pres_format.validate_fields(PRES_20_REQUEST, c)]. *)
Definition call_validate_fields_in (pf : Format) (c : Content) : ST unit :=
  fun s =>
    (fst (Format_validate_fields_in pf PRES_20_REQUEST c s),
     match snd (Format_validate_fields_in pf PRES_20_REQUEST c s) with
     | Some reason => Raise (FormatValidationError pf reason)
     | None => Ok tt
     end).

(** The body of [for fmt in formats]. *)
Definition validate_one_in (attachments : list Attach) (fmt : V20PresFormat)
    : ST unit :=
  st_bind (st_lift (get_attach_by_id attachments (attach_id fmt)))
    (fun atch =>
       st_bind (call_Format_get_in (format fmt))
         (fun pres_format =>
            match pres_format with
            | Some pf => call_validate_fields_in pf (content atch)
            | None => st_ret tt
            end)).

Fixpoint validate_loop_in (attachments : list Attach)
    (formats : list V20PresFormat) : ST unit :=
  match formats with
  | [] => st_ret tt
  | fmt :: rest =>
      st_bind (validate_one_in attachments fmt)
        (fun _ => validate_loop_in attachments rest)
  end.

Definition validate_fields_in (data : SchemaData) : ST unit :=
  let formats := or_empty (data_formats data) in
  let attachments := or_empty (data_request_presentations_attach data) in
  if negb (Nat.eqb (List.length formats) (List.length attachments)) then
    st_lift (Raise (ValidationError length_mismatch_msg))
  else
    validate_loop_in attachments formats.


(** The registry answers, in every store, what [registry] answers. *)
Definition answers_as_registry : Prop :=
  (forall label s, snd (Format_get_in label s) = Format_get label) /\
  (forall pf message_type c s,
     snd (Format_validate_fields_in pf message_type c s) =
     Format_validate_fields pf message_type c).

End Stateful.

(** A registry that counts the calls made into it and answers as the
    concrete registry does. *)
Module DemoState.


(** A registry whose validator rejects on every other call. *)
Definition alternating : RegistryState Demo.registry := {|
  Store := bool;
  Format_get_in := fun label rejecting => (rejecting, Demo.member_get label);
  Format_validate_fields_in := fun pf message_type c rejecting =>
    (negb rejecting, if rejecting then Some "rejected this time" else None)
|}.

End DemoState.

(** ** The DID key plugin

    [did_key_plugin/v1_0/__init__.py]: the coroutine [setup(context)] has no
    [await]; it runs straight through.  The context, the [DIDMethods]
    registry and the logger are collaborators: every call into them is
    recorded, and what the context hands back is part of the input. *)
Module DidKeyPlugin.

(** The key types named by [setup]. *)
Inductive KeyType : Type := ED25519 | BLS12381G2.

(** The arguments of the [DIDMethod] constructor call. *)
Record DIDMethod : Type := {
  name : string;
  key_types : list KeyType;
  rotation : bool
}.

(** The classes [setup] asks the context for. *)
Inductive Injectable : Type :=
| DIDMethods | ProtocolRegistry | PluginRegistry | EventBus.

(** A value handed back by the context: [None], or an object with its truth
    value. *)
Inductive Value : Type :=
| PyNone
| Obj (truthy : bool).

(** [not v]. *)
Definition py_not (v : Value) : bool :=
  match v with
  | PyNone => true
  | Obj truthy => negb truthy
  end.

Inductive exn : Type :=
| ValueError (msg : string)
| AttributeError (msg : string)
| InjectRaised (cls : Injectable) (reason : string).

Inductive result (A : Type) : Type :=
| Ok (a : A)
| Raise (e : exn).
Arguments Ok {A} _.
Arguments Raise {A} _.

(** The context: [context.injector.inject_or(cls)] returns a value (the
    default [None] when nothing is bound); [context.inject(cls)] returns a
    value or raises. *)
Record InjectionContext : Type := {
  inject_or : Injectable -> Value;
  inject : Injectable -> result Value
}.

Inductive event : Type :=
| Info (msg : string)
| Call_inject_or (cls : Injectable)
| Call_register (method : DIDMethod)
| Call_inject (cls : Injectable).

Definition M (A : Type) : Type := list event -> list event * result A.

Definition ret {A : Type} (a : A) : M A := fun log => (log, Ok a).

Definition raise {A : Type} (e : exn) : M A := fun log => (log, Raise e).

Definition bind {A B : Type} (m : M A) (k : A -> M B) : M B :=
  fun log =>
    match m log with
    | (log', Ok a) => k a log'
    | (log', Raise e) => (log', Raise e)
    end.

Definition emit (ev : event) : M unit := fun log => (log ++ [ev], Ok tt).

Notation "x <- m ;; k" := (bind m (fun x => k))
  (at level 61, m at next level, right associativity).
Notation "m ;;; k" := (bind m (fun _ => k))
  (at level 61, right associativity).

(** [LOGGER.info(msg)]. *)
Definition LOGGER_info (msg : string) : M unit := emit (Info msg).

(** [context.injector.inject_or(cls)]. *)
Definition call_inject_or (context : InjectionContext) (cls : Injectable)
    : M Value :=
  emit (Call_inject_or cls) ;;; ret (inject_or context cls).

(** [context.inject(cls)]. *)
Definition call_inject (context : InjectionContext) (cls : Injectable)
    : M Value :=
  emit (Call_inject cls) ;;;
  match inject context cls with
  | Ok v => ret v
  | Raise e => raise e
  end.

(** [did_methods.register(method)]: attribute access on [None] raises. *)
Definition call_register (did_methods : Value) (method : DIDMethod) : M unit :=
  match did_methods with
  | PyNone =>
      raise (AttributeError "'NoneType' object has no attribute 'register'")
  | Obj _ => emit (Call_register method)
  end.

(** The method [setup] builds. *)
Definition KEY : DIDMethod :=
  {| name := "key"; key_types := [ED25519; BLS12381G2]; rotation := false |}.

Definition start_msg : string := "> DID key plugin setup...".
Definition complete_msg : string := "< DID key plugin setup complete".

(** [if not v: raise ValueError(msg)]. *)
Definition require (v : Value) (msg : string) : M unit :=
  if py_not v then raise (ValueError msg) else ret tt.

Definition setup (context : InjectionContext) : M unit :=
  LOGGER_info start_msg ;;;
  did_methods <- call_inject_or context DIDMethods ;;
  call_register did_methods KEY ;;;
  protocol_registry <- call_inject context ProtocolRegistry ;;
  require protocol_registry "ProtocolRegistry missing in context" ;;;
  plugin_registry <- call_inject context PluginRegistry ;;
  require plugin_registry "PluginRegistry missing in context" ;;;
  bus <- call_inject context EventBus ;;
  require bus "EventBus missing in context" ;;;
  LOGGER_info complete_msg.

(** The call into the context for [cls] gave back a true object. *)
Definition provided (context : InjectionContext) (cls : Injectable) : Prop :=
  inject context cls = Ok (Obj true).

(** The call gave back [None] or a false object. *)
Definition lacking (context : InjectionContext) (cls : Injectable) : Prop :=
  exists v, inject context cls = Ok v /\ py_not v = true.

(** A context in which everything is bound. *)
Definition full_context : InjectionContext :=
  {| inject_or := fun _ => Obj true; inject := fun _ => Ok (Obj true) |}.

(** A context with a [DIDMethods] registry and a protocol registry only. *)
Definition no_plugin_registry : InjectionContext :=
  {| inject_or := fun _ => Obj true;
     inject := fun cls => match cls with
                          | PluginRegistry => Ok PyNone
                          | _ => Ok (Obj true)
                          end |}.

(** A context with no [DIDMethods] registry bound. *)
Definition no_did_methods : InjectionContext :=
  {| inject_or := fun _ => PyNone; inject := fun _ => Ok (Obj true) |}.

End DidKeyPlugin.

(** * Properties *)

(** ** Base64: decoding undoes encoding *)

Module Base64Facts.

Import Base64.
Local Open Scope N_scope.

(** Induction over a byte string three octets at a time. *)
Lemma list_ind3 {A : Type} (P : list A -> Prop) :
  P [] -> (forall a, P [a]) -> (forall a b, P [a; b]) ->
  (forall a b c l, P l -> P (a :: b :: c :: l)) ->
  forall l, P l.
Proof.
  intros H0 H1 H2 H3 l.
  enough (H : P l /\ (forall a, P (a :: l)) /\ (forall a b, P (a :: b :: l)))
    by apply H.
  induction l as [| c l (IHl & IHl1 & IHl2)]; repeat split; auto.
Qed.

Lemma testbit_small (b k n : N) : b < 2 ^ k -> k <= n -> N.testbit b n = false.
Proof.
  intros Hb Hkn. destruct (N.eq_dec b 0) as [-> | Hnz].
  - apply N.bits_0.
  - apply N.bits_above_log2. apply N.log2_lt_pow2; [lia |].
    apply N.lt_le_trans with (2 ^ k); [exact Hb |].
    apply N.pow_le_mono_r; lia.
Qed.

(** Or-ing a value below [2^k] into a left shift by [k] adds it. *)
Lemma lor_shiftl_low (a b k : N) :
  b < 2 ^ k -> N.lor (N.shiftl a k) b = a * 2 ^ k + b.
Proof.
  intros Hb.
  assert (Hdisj : N.land (N.shiftl a k) b = 0).
  { apply N.bits_inj_0. intros n. rewrite N.land_spec.
    destruct (N.lt_ge_cases n k) as [Hlt | Hge].
    - now rewrite N.shiftl_spec_low.
    - rewrite (testbit_small b k n Hb Hge). apply andb_false_r. }
  rewrite <- N.lxor_lor, <- N.add_nocarry_lxor by exact Hdisj.
  now rewrite N.shiftl_mul_pow2.
Qed.

Ltac pow2 :=
  change (2 ^ 2) with 4 in *; change (2 ^ 4) with 16 in *;
  change (2 ^ 6) with 64 in *.

Ltac euclid := zify; Z.to_euclidean_division_equations; lia.

(** The shift-and-mask groups, as quotients and remainders. *)
Lemma sextet1_arith (b1 : N) : sextet1 b1 = b1 / 4.
Proof. unfold sextet1. now rewrite N.shiftr_div_pow2. Qed.

Lemma sextet2_arith (b1 b2 : N) :
  b2 <= 255 -> sextet2 b1 b2 = (b1 mod 4) * 16 + b2 / 16.
Proof.
  intros H. unfold sextet2. change 3 with (N.ones 2).
  rewrite N.land_ones, N.shiftr_div_pow2. pow2.
  rewrite lor_shiftl_low; pow2; [reflexivity | euclid].
Qed.

Lemma sextet3_arith (b2 b3 : N) :
  b3 <= 255 -> sextet3 b2 b3 = (b2 mod 16) * 4 + b3 / 64.
Proof.
  intros H. unfold sextet3. change 15 with (N.ones 4).
  rewrite N.land_ones, N.shiftr_div_pow2. pow2.
  rewrite lor_shiftl_low; pow2; [reflexivity | euclid].
Qed.

Lemma sextet4_arith (b3 : N) : sextet4 b3 = b3 mod 64.
Proof. unfold sextet4. change 63 with (N.ones 6). now rewrite N.land_ones. Qed.

Lemma octet1_arith (s1 s2 : N) : s2 < 64 -> octet1 s1 s2 = s1 * 4 + s2 / 16.
Proof.
  intros H. unfold octet1. rewrite N.shiftr_div_pow2. pow2.
  rewrite lor_shiftl_low; pow2; [reflexivity | euclid].
Qed.

Lemma octet2_arith (s2 s3 : N) :
  s3 < 64 -> octet2 s2 s3 = (s2 mod 16) * 16 + s3 / 4.
Proof.
  intros H. unfold octet2. change 15 with (N.ones 4).
  rewrite N.land_ones, N.shiftr_div_pow2. pow2.
  rewrite lor_shiftl_low; pow2; [reflexivity | euclid].
Qed.

Lemma octet3_arith (s3 s4 : N) :
  s4 < 64 -> octet3 s3 s4 = (s3 mod 4) * 64 + s4.
Proof.
  intros H. unfold octet3. change 3 with (N.ones 2).
  rewrite N.land_ones. pow2.
  rewrite lor_shiftl_low; pow2; [reflexivity | exact H].
Qed.

(** Every group of an octet triple is a valid table index. *)
Lemma sextets_bounded (b1 b2 b3 : N) :
  b1 <= 255 -> b2 <= 255 -> b3 <= 255 ->
  sextet1 b1 < 64 /\ sextet2 b1 b2 < 64 /\ sextet3 b2 b3 < 64 /\
  sextet4 b3 < 64.
Proof.
  intros H1 H2 H3.
  rewrite sextet1_arith, sextet2_arith, sextet3_arith, sextet4_arith by assumption.
  repeat split; euclid.
Qed.

(** Regrouping four 6-bit groups gives the three octets back. *)
Lemma octets_of_sextets (b1 b2 b3 : N) :
  b1 <= 255 -> b2 <= 255 -> b3 <= 255 ->
  octet1 (sextet1 b1) (sextet2 b1 b2) = b1 /\
  octet2 (sextet2 b1 b2) (sextet3 b2 b3) = b2 /\
  octet3 (sextet3 b2 b3) (sextet4 b3) = b3.
Proof.
  intros H1 H2 H3.
  destruct (sextets_bounded b1 b2 b3 H1 H2 H3) as (B1 & B2 & B3 & B4).
  rewrite octet1_arith, octet2_arith, octet3_arith by assumption.
  rewrite sextet1_arith, sextet2_arith, sextet3_arith, sextet4_arith by assumption.
  repeat split; euclid.
Qed.

(** The two tables are inverse on the 64 indices, no table entry is the
    padding character, and every entry is ASCII. *)
Lemma table_checked : forallb table_check (map N.of_nat (seq 0 64)) = true.
Proof. vm_compute. reflexivity. Qed.

Lemma table_entry (n : N) :
  n < 64 ->
  a2b (b2a n) = Some n /\ Byte.eqb (b2a n) pad = false /\
  Byte.to_N (b2a n) < 128.
Proof.
  intros Hn.
  assert (Hin : In n (map N.of_nat (seq 0 64))).
  { rewrite <- (N2Nat.id n). apply in_map, in_seq. lia. }
  pose proof (proj1 (forallb_forall _ _) table_checked n Hin) as Hc.
  unfold table_check in Hc.
  destruct (a2b (b2a n)) as [m |]; [| discriminate].
  apply andb_true_iff in Hc. destruct Hc as [Hc Ha].
  apply andb_true_iff in Hc. destruct Hc as [Hm Hp].
  apply N.eqb_eq in Hm. subst m. apply N.ltb_lt in Ha.
  repeat split; [now apply negb_true_iff | exact Ha].
Qed.

Lemma table_inverse (n : N) :
  n < 64 -> a2b (b2a n) = Some n /\ Byte.eqb (b2a n) pad = false.
Proof. intros Hn. destruct (table_entry n Hn) as (H1 & H2 & _). auto. Qed.

(** One step of the decoder on a full group. *)
Lemma b64decode_full (c1 c2 c3 c4 : byte) (rest : list byte) (s1 s2 s3 s4 : N) :
  a2b c1 = Some s1 -> a2b c2 = Some s2 -> a2b c3 = Some s3 ->
  a2b c4 = Some s4 -> Byte.eqb c4 pad = false ->
  b64decode (c1 :: c2 :: c3 :: c4 :: rest) =
  match Byte.of_N (octet1 s1 s2), Byte.of_N (octet2 s2 s3),
        Byte.of_N (octet3 s3 s4), b64decode rest with
  | Some o1, Some o2, Some o3, Some tl => Some (o1 :: o2 :: o3 :: tl)
  | _, _, _, _ => None
  end.
Proof.
  intros H1 H2 H3 H4 Hp. cbn [b64decode].
  now rewrite H1, H2, Hp, H3, H4.
Qed.

(** The decoder on a final group with one padding character. *)
Lemma b64decode_pad1 (c1 c2 c3 : byte) (s1 s2 s3 : N) :
  a2b c1 = Some s1 -> a2b c2 = Some s2 -> a2b c3 = Some s3 ->
  Byte.eqb c3 pad = false ->
  b64decode [c1; c2; c3; pad] =
  match Byte.of_N (octet1 s1 s2), Byte.of_N (octet2 s2 s3) with
  | Some o1, Some o2 => Some [o1; o2]
  | _, _ => None
  end.
Proof.
  intros H1 H2 H3 Hp. cbn [b64decode].
  rewrite H1, H2, Hp, H3.
  now rewrite (byte_dec_lb (eq_refl pad)).
Qed.

(** The decoder on a final group with two padding characters. *)
Lemma b64decode_pad2 (c1 c2 : byte) (s1 s2 : N) :
  a2b c1 = Some s1 -> a2b c2 = Some s2 ->
  b64decode [c1; c2; pad; pad] =
  option_map (fun o1 => [o1]) (Byte.of_N (octet1 s1 s2)).
Proof.
  intros H1 H2. cbn [b64decode].
  rewrite H1, H2.
  now rewrite (byte_dec_lb (eq_refl pad)).
Qed.

Lemma b64decode_b64encode (s : list byte) : b64decode (b64encode s) = Some s.
Proof.
  induction s as [| b1 | b1 b2 | b1 b2 b3 rest IH] using list_ind3.
  - reflexivity.
  - pose proof (Byte.to_N_bounded b1) as H1.
    destruct (sextets_bounded (Byte.to_N b1) 0 0 H1) as (B1 & B2 & _); [lia | lia |].
    destruct (octets_of_sextets (Byte.to_N b1) 0 0 H1) as (O1 & _); [lia | lia |].
    cbn [b64encode].
    rewrite (b64decode_pad2 _ _ _ _ (proj1 (table_inverse _ B1))
               (proj1 (table_inverse _ B2))).
    now rewrite O1, Byte.of_to_N.
  - pose proof (Byte.to_N_bounded b1) as H1.
    pose proof (Byte.to_N_bounded b2) as H2.
    destruct (sextets_bounded (Byte.to_N b1) (Byte.to_N b2) 0 H1 H2)
      as (B1 & B2 & B3 & _); [lia |].
    destruct (octets_of_sextets (Byte.to_N b1) (Byte.to_N b2) 0 H1 H2)
      as (O1 & O2 & _); [lia |].
    cbn [b64encode].
    rewrite (b64decode_pad1 _ _ _ _ _ _ (proj1 (table_inverse _ B1))
               (proj1 (table_inverse _ B2)) (proj1 (table_inverse _ B3))
               (proj2 (table_inverse _ B3))).
    now rewrite O1, O2, !Byte.of_to_N.
  - pose proof (Byte.to_N_bounded b1) as H1.
    pose proof (Byte.to_N_bounded b2) as H2.
    pose proof (Byte.to_N_bounded b3) as H3.
    destruct (sextets_bounded _ _ _ H1 H2 H3) as (B1 & B2 & B3 & B4).
    destruct (octets_of_sextets _ _ _ H1 H2 H3) as (O1 & O2 & O3).
    cbn [b64encode].
    rewrite (b64decode_full _ _ _ _ _ _ _ _ _ (proj1 (table_inverse _ B1))
               (proj1 (table_inverse _ B2)) (proj1 (table_inverse _ B3))
               (proj1 (table_inverse _ B4)) (proj2 (table_inverse _ B4))).
    now rewrite O1, O2, O3, !Byte.of_to_N, IH.
Qed.

(** The encoder's output is ASCII. *)
Lemma b64encode_ascii (s : list byte) :
  Forall (fun c => Byte.to_N c < 128) (b64encode s).
Proof.
  assert (Hpad : Byte.to_N pad < 128) by (vm_compute; reflexivity).
  induction s as [| b1 | b1 b2 | b1 b2 b3 rest IH] using list_ind3.
  - constructor.
  - pose proof (Byte.to_N_bounded b1) as H1.
    destruct (sextets_bounded (Byte.to_N b1) 0 0 H1) as (B1 & B2 & _); [lia | lia |].
    cbn [b64encode].
    repeat constructor; solve [exact Hpad | now apply table_entry].
  - pose proof (Byte.to_N_bounded b1) as H1.
    pose proof (Byte.to_N_bounded b2) as H2.
    destruct (sextets_bounded (Byte.to_N b1) (Byte.to_N b2) 0 H1 H2)
      as (B1 & B2 & B3 & _); [lia |].
    cbn [b64encode].
    repeat constructor; solve [exact Hpad | now apply table_entry].
  - pose proof (Byte.to_N_bounded b1) as H1.
    pose proof (Byte.to_N_bounded b2) as H2.
    pose proof (Byte.to_N_bounded b3) as H3.
    destruct (sextets_bounded _ _ _ H1 H2 H3) as (B1 & B2 & B3 & B4).
    cbn [b64encode].
    repeat (constructor; [now apply table_entry |]). exact IH.
Qed.

(** On such text, decoding as UTF-8 and encoding again is the identity. *)
Lemma encode_utf8_decode_utf8 (s : list byte) :
  encode_utf8 (decode_utf8 s) = s.
Proof. apply list_byte_of_string_of_list_byte. Qed.

End Base64Facts.

Section Properties.

Context {registry : FormatRegistry}.

(** ** The call log is append-only and never read *)

Lemma local_ret {A : Type} (a : A) : local (ret a).
Proof. intros log. unfold ret. simpl. now rewrite app_nil_r. Qed.

Lemma local_raise {A : Type} (e : exn) : local (raise (A := A) e).
Proof. intros log. unfold raise. simpl. now rewrite app_nil_r. Qed.

Lemma local_lift {A : Type} (r : result A) : local (lift r).
Proof. intros log. unfold lift. simpl. now rewrite app_nil_r. Qed.

Lemma local_emit (ev : event) : local (emit ev).
Proof. intros log. reflexivity. Qed.

Lemma local_bind {A B : Type} (m : M A) (k : A -> M B) :
  local m -> (forall a, local (k a)) -> local (bind m k).
Proof.
  intros Hm Hk log. unfold bind.
  rewrite (Hm log).
  destruct (m []) as [l1 [a | e]]; simpl.
  - rewrite (Hk a (log ++ l1)), (Hk a l1). simpl.
    now rewrite app_assoc.
  - reflexivity.
Qed.

Lemma local_call_validate_fields (pf : Format) (c : Content) :
  local (call_validate_fields pf c).
Proof.
  unfold call_validate_fields.
  apply local_bind; [apply local_emit | intros _].
  destruct (Format_validate_fields pf PRES_20_REQUEST c);
    [apply local_raise | apply local_ret].
Qed.

Lemma local_validate_one (attachments : list Attach) (fmt : V20PresFormat) :
  local (validate_one attachments fmt).
Proof.
  unfold validate_one.
  apply local_bind; [apply local_emit | intros _].
  apply local_bind; [apply local_lift | intros atch].
  destruct (Format_get (format fmt));
    [apply local_call_validate_fields | apply local_ret].
Qed.

Lemma local_validate_loop (attachments : list Attach)
    (formats : list V20PresFormat) :
  local (validate_loop attachments formats).
Proof.
  induction formats as [| fmt rest IH]; simpl.
  - apply local_ret.
  - apply local_bind; [apply local_validate_one | intros _; exact IH].
Qed.

Lemma local_validate_fields (data : SchemaData) : local (validate_fields data).
Proof.
  unfold validate_fields.
  destruct (negb _); [apply local_raise | apply local_validate_loop].
Qed.

(** ** One iteration, and the loop over a concatenation *)

Lemma validate_one_eq (attachments : list Attach) (fmt : V20PresFormat)
    (log : list event) :
  validate_one attachments fmt log = validate_one_cases attachments fmt log.
Proof.
  unfold validate_one, validate_one_cases, call_validate_fields,
    bind, emit, lift, ret, raise.
  destruct (get_attach_by_id attachments (attach_id fmt)) as [atch | e];
    [| reflexivity].
  destruct (Format_get (format fmt)) as [pf |]; [| reflexivity].
  destruct (Format_validate_fields pf PRES_20_REQUEST (content atch));
    reflexivity.
Qed.

Lemma validate_loop_cons (attachments : list Attach) (fmt : V20PresFormat)
    (rest : list V20PresFormat) (log : list event) :
  validate_loop attachments (fmt :: rest) log =
  match validate_one_cases attachments fmt log with
  | (log', Ok _) => validate_loop attachments rest log'
  | (log', Raise e) => (log', Raise e)
  end.
Proof.
  simpl. unfold bind. rewrite validate_one_eq.
  destruct (validate_one_cases attachments fmt log) as [log' [[] | e]];
    reflexivity.
Qed.

Lemma validate_loop_app (attachments : list Attach)
    (pre post : list V20PresFormat) (log : list event) :
  validate_loop attachments (pre ++ post) log =
  match validate_loop attachments pre log with
  | (log', Ok _) => validate_loop attachments post log'
  | (log', Raise e) => (log', Raise e)
  end.
Proof.
  revert log. induction pre as [| fmt pre IH]; intros log.
  - reflexivity.
  - rewrite <- app_comm_cons, !validate_loop_cons.
    destruct (validate_one_cases attachments fmt log) as [log' [[] | e]];
      [apply IH | reflexivity].
Qed.

(** ** Cardinality *)

(** C1.  Whenever the number of format descriptors differs from the number
    of attachments, whatever the two sequences contain, [validate_fields]
    raises the length-mismatch [ValidationError], and it does so with the
    call log untouched: no [get_attach_by_id] lookup and no per-format
    validator call has been made. *)
Theorem validate_fields_length_mismatch (data : SchemaData) (log : list event) :
  List.length (or_empty (data_formats data)) <>
    List.length (or_empty (data_request_presentations_attach data)) ->
  validate_fields data log = (log, Raise (ValidationError length_mismatch_msg)).
Proof.
  intros Hne. unfold validate_fields.
  apply Nat.eqb_neq in Hne. rewrite Hne. reflexivity.
Qed.

(** C10.  When both sequences are empty, each of them either stored as the
    empty list or missing / stored as [None], the validator returns normally
    and makes no call at all. *)
Theorem validate_fields_both_empty (data : SchemaData) (log : list event) :
  data_formats data = None \/ data_formats data = Some [] ->
  data_request_presentations_attach data = None \/
    data_request_presentations_attach data = Some [] ->
  validate_fields data log = (log, Ok tt).
Proof.
  intros [Hf | Hf] [Ha | Ha]; unfold validate_fields;
    rewrite Hf, Ha; reflexivity.
Qed.

(** ** Lookup by identifier *)

Lemma get_attach_by_id_Ok (attachments : list Attach) (i : string)
    (atch : Attach) :
  get_attach_by_id attachments i = Ok atch ->
  In atch attachments /\ ident atch = i.
Proof.
  induction attachments as [| x rest IH]; simpl; [discriminate |].
  destruct (String.eqb (ident x) i) eqn:E.
  - intros [= <-]. apply String.eqb_eq in E. auto.
  - intros H. destruct (IH H). auto.
Qed.

Lemma get_attach_by_id_first (pre post : list Attach) (atch : Attach)
    (i : string) :
  (forall p, In p pre -> ident p <> i) ->
  ident atch = i ->
  get_attach_by_id (pre ++ atch :: post) i = Ok atch.
Proof.
  intros Hpre Hi. induction pre as [| x pre IH]; simpl.
  - apply String.eqb_eq in Hi. now rewrite Hi.
  - assert (E : String.eqb (ident x) i = false)
      by (apply String.eqb_neq, Hpre; now left).
    rewrite E. apply IH. intros p Hp. apply Hpre. now right.
Qed.

Lemma get_attach_by_id_missing (attachments : list Attach) (i : string) :
  (forall a, In a attachments -> ident a <> i) ->
  get_attach_by_id attachments i = Raise (ValidationError (no_attachment_msg i)).
Proof.
  induction attachments as [| x rest IH]; simpl; intros H; [reflexivity |].
  assert (E : String.eqb (ident x) i = false)
    by (apply String.eqb_neq, H; now left).
  rewrite E. apply IH. intros a Ha. apply H. now right.
Qed.

Lemma get_attach_by_id_missing_shape (attachments : list Attach) (i : string)
    (e : exn) :
  get_attach_by_id attachments i = Raise e ->
  e = ValidationError (no_attachment_msg i).
Proof.
  induction attachments as [| x rest IH]; simpl.
  - now intros [= <-].
  - destruct (String.eqb (ident x) i); [discriminate | exact IH].
Qed.

Lemma get_attach_by_id_counted (attachments : list Attach) (i : string) :
  count_ident attachments i <> 0 ->
  exists atch, get_attach_by_id attachments i = Ok atch.
Proof.
  unfold count_ident.
  induction attachments as [| x rest IH]; simpl; [congruence |].
  destruct (String.eqb (ident x) i); [eauto | exact IH].
Qed.

(** The loop raises the schema's own [ValidationError] only for a descriptor
    that resolves to no attachment. *)
Lemma validate_loop_no_schema_error (attachments : list Attach)
    (formats : list V20PresFormat) (log : list event) (msg : string) :
  (forall fmt, In fmt formats ->
     exists atch, get_attach_by_id attachments (attach_id fmt) = Ok atch) ->
  snd (validate_loop attachments formats log) <> Raise (ValidationError msg).
Proof.
  revert log. induction formats as [| fmt rest IH]; intros log Hall.
  - simpl. discriminate.
  - rewrite validate_loop_cons. unfold validate_one_cases.
    destruct (Hall fmt (or_introl eq_refl)) as [atch ->].
    destruct (Format_get (format fmt)) as [pf |].
    + destruct (Format_validate_fields pf PRES_20_REQUEST (content atch)).
      * simpl. discriminate.
      * apply IH. intros f Hf. apply Hall. now right.
    + apply IH. intros f Hf. apply Hall. now right.
Qed.

Lemma lookups_app (l1 l2 : list event) :
  lookups (l1 ++ l2) = lookups l1 ++ lookups l2.
Proof. apply flat_map_app. Qed.

Lemma dispatched_app (l1 l2 : list event) :
  dispatched (l1 ++ l2) = dispatched l1 ++ dispatched l2.
Proof. apply flat_map_app. Qed.

(** A pass that returns normally has looked up every descriptor, in order. *)
Lemma validate_loop_Ok_lookups (attachments : list Attach)
    (formats : list V20PresFormat) (log : list event) :
  snd (validate_loop attachments formats log) = Ok tt ->
  lookups (fst (validate_loop attachments formats log)) =
  lookups log ++ map attach_id formats.
Proof.
  revert log. induction formats as [| fmt rest IH]; intros log.
  - simpl. now rewrite app_nil_r.
  - rewrite validate_loop_cons. unfold validate_one_cases.
    destruct (get_attach_by_id attachments (attach_id fmt)) as [atch | e];
      [| discriminate].
    destruct (Format_get (format fmt)) as [pf |].
    + destruct (Format_validate_fields pf PRES_20_REQUEST (content atch));
        [discriminate |].
      intros H. rewrite (IH _ H), !lookups_app. simpl.
      now rewrite app_nil_r, <- app_assoc.
    + intros H. rewrite (IH _ H), lookups_app. simpl.
      now rewrite <- app_assoc.
Qed.

(** ** Correlation *)

(** C4.  When several attachments carry the identifier a descriptor names,
    [get_attach_by_id] returns the first of them in sequence order, and the
    descriptor's iteration raises no schema error: it hands the first
    attachment's content to the validator of a known format, and does nothing
    more for an unknown one. *)
Theorem duplicate_ident_first_wins (pre post : list Attach) (first dup : Attach)
    (fmt : V20PresFormat) :
  (forall p, In p pre -> ident p <> attach_id fmt) ->
  ident first = attach_id fmt ->
  In dup post -> ident dup = attach_id fmt ->
  let attachments := pre ++ first :: post in
  get_attach_by_id attachments (attach_id fmt) = Ok first /\
  forall log,
    let looked_up := log ++ [Call_get_attach_by_id (attach_id fmt)] in
    (forall msg,
       snd (validate_one attachments fmt log) <> Raise (ValidationError msg)) /\
    match Format_get (format fmt) with
    | Some pf =>
        fst (validate_one attachments fmt log) =
        looked_up ++ [Call_validate_fields pf PRES_20_REQUEST (content first)]
    | None => validate_one attachments fmt log = (looked_up, Ok tt)
    end.
Proof.
  intros Hpre Hfirst _ _ attachments.
  assert (Hget : get_attach_by_id attachments (attach_id fmt) = Ok first)
    by now apply get_attach_by_id_first.
  split; [exact Hget |].
  intros log looked_up. rewrite validate_one_eq.
  unfold validate_one_cases. rewrite Hget.
  destruct (Format_get (format fmt)) as [pf |].
  - split; [| reflexivity]. intros msg. simpl.
    destruct (Format_validate_fields pf PRES_20_REQUEST (content first));
      discriminate.
  - split; [| reflexivity]. intros msg. simpl. discriminate.
Qed.

(** ** Dispatch to per-format validators *)

(** The descriptors whose validators accept: each resolves, and if its format
    is known the format's validator returns normally on the content. *)
Lemma validate_loop_accepting (attachments : list Attach)
    (formats : list V20PresFormat) (log : list event) :
  (forall p, In p formats ->
     exists atch, get_attach_by_id attachments (attach_id p) = Ok atch /\
       forall pf, Format_get (format p) = Some pf ->
         Format_validate_fields pf PRES_20_REQUEST (content atch) = None) ->
  snd (validate_loop attachments formats log) = Ok tt.
Proof.
  revert log. induction formats as [| fmt rest IH]; intros log Hall.
  - reflexivity.
  - rewrite validate_loop_cons. unfold validate_one_cases.
    destruct (Hall fmt (or_introl eq_refl)) as [atch [-> Hacc]].
    assert (Hrest : forall log', snd (validate_loop attachments rest log') = Ok tt)
      by (intros log'; apply IH; intros p Hp; apply Hall; now right).
    destruct (Format_get (format fmt)) as [pf |]; [| apply Hrest].
    rewrite (Hacc pf eq_refl). apply Hrest.
Qed.

Lemma validate_loop_dispatched_prefix (attachments : list Attach)
    (formats : list V20PresFormat) (log : list event) :
  exists rest,
    dispatched log ++ known_dispatches attachments formats =
    dispatched (fst (validate_loop attachments formats log)) ++ rest.
Proof.
  revert log. induction formats as [| fmt rest IH]; intros log.
  - exists []. reflexivity.
  - rewrite validate_loop_cons. unfold validate_one_cases, known_dispatches.
    simpl flat_map. fold (known_dispatches attachments rest).
    destruct (get_attach_by_id attachments (attach_id fmt)) as [atch | e].
    + destruct (Format_get (format fmt)) as [pf |].
      * destruct (Format_validate_fields pf PRES_20_REQUEST (content atch)).
        -- exists (known_dispatches attachments rest). simpl fst.
           rewrite !dispatched_app. simpl. now rewrite app_nil_r, <- app_assoc.
        -- destruct (IH ((log ++ [Call_get_attach_by_id (attach_id fmt)]) ++
                   [Call_validate_fields pf PRES_20_REQUEST (content atch)]))
             as [r Hr].
           exists r. rewrite <- Hr, !dispatched_app. simpl.
           now rewrite app_nil_r, <- app_assoc.
      * destruct (IH (log ++ [Call_get_attach_by_id (attach_id fmt)]))
          as [r Hr].
        exists r. rewrite <- Hr, dispatched_app. simpl.
        now rewrite app_nil_r.
    + exists (known_dispatches attachments rest). simpl fst.
      rewrite dispatched_app. simpl.
      destruct (Format_get (format fmt)); now rewrite app_nil_r.
Qed.

Lemma validate_loop_Ok_dispatched (attachments : list Attach)
    (formats : list V20PresFormat) (log : list event) :
  snd (validate_loop attachments formats log) = Ok tt ->
  dispatched (fst (validate_loop attachments formats log)) =
  dispatched log ++ known_dispatches attachments formats.
Proof.
  revert log. induction formats as [| fmt rest IH]; intros log.
  - simpl. now rewrite app_nil_r.
  - rewrite validate_loop_cons. unfold validate_one_cases, known_dispatches.
    simpl flat_map. fold (known_dispatches attachments rest).
    destruct (get_attach_by_id attachments (attach_id fmt)) as [atch | e];
      [| discriminate].
    destruct (Format_get (format fmt)) as [pf |].
    + destruct (Format_validate_fields pf PRES_20_REQUEST (content atch));
        [discriminate |].
      intros H. rewrite (IH _ H), !dispatched_app. simpl.
      now rewrite app_nil_r, <- app_assoc.
    + intros H. rewrite (IH _ H), dispatched_app. simpl.
      now rewrite app_nil_r.
Qed.

Lemma validate_loop_Ok_resolves (attachments : list Attach)
    (formats : list V20PresFormat) (log : list event) :
  snd (validate_loop attachments formats log) = Ok tt ->
  forall fmt, In fmt formats ->
    exists atch, get_attach_by_id attachments (attach_id fmt) = Ok atch.
Proof.
  revert log. induction formats as [| fmt rest IH]; intros log H f Hf.
  - destruct Hf.
  - rewrite validate_loop_cons in H. unfold validate_one_cases in H.
    destruct (get_attach_by_id attachments (attach_id fmt)) as [atch | e] eqn:G;
      [| discriminate].
    destruct Hf as [<- | Hf]; [eauto |].
    destruct (Format_get (format fmt)) as [pf |].
    + destruct (Format_validate_fields pf PRES_20_REQUEST (content atch));
        [discriminate | eauto].
    + eauto.
Qed.

Lemma known_dispatches_length (attachments : list Attach)
    (formats : list V20PresFormat) :
  (forall fmt, In fmt formats ->
     exists atch, get_attach_by_id attachments (attach_id fmt) = Ok atch) ->
  List.length (known_dispatches attachments formats) =
  List.length (filter (fun fmt => truthy (Format_get (format fmt))) formats).
Proof.
  induction formats as [| fmt rest IH]; intros Hall; [reflexivity |].
  unfold known_dispatches. simpl flat_map.
  fold (known_dispatches attachments rest). simpl filter.
  destruct (Hall fmt (or_introl eq_refl)) as [atch ->].
  rewrite length_app, IH by (intros f Hf; apply Hall; now right).
  destruct (Format_get (format fmt)); reflexivity.
Qed.

Lemma validate_loop_format_error (attachments : list Attach)
    (formats : list V20PresFormat) (log : list event) (pf : Format)
    (reason : string) :
  snd (validate_loop attachments formats log) =
    Raise (FormatValidationError pf reason) ->
  exists fmt atch,
    In fmt formats /\ Format_get (format fmt) = Some pf /\
    get_attach_by_id attachments (attach_id fmt) = Ok atch /\
    Format_validate_fields pf PRES_20_REQUEST (content atch) = Some reason.
Proof.
  revert log. induction formats as [| fmt rest IH]; intros log H.
  - discriminate.
  - rewrite validate_loop_cons in H. unfold validate_one_cases in H.
    assert (Hrest : forall log',
              snd (validate_loop attachments rest log') =
                Raise (FormatValidationError pf reason) ->
              exists f atch, In f (fmt :: rest) /\ Format_get (format f) = Some pf /\
                get_attach_by_id attachments (attach_id f) = Ok atch /\
                Format_validate_fields pf PRES_20_REQUEST (content atch) =
                  Some reason).
    { intros log' H'. destruct (IH log' H') as (f & a & Hin & Hrest).
      exists f, a. split; [now right | exact Hrest]. }
    destruct (get_attach_by_id attachments (attach_id fmt)) as [atch | e] eqn:G.
    + destruct (Format_get (format fmt)) as [pf' |] eqn:K; [| eauto].
      destruct (Format_validate_fields pf' PRES_20_REQUEST (content atch))
        as [reason' |] eqn:V; [| eauto].
      simpl in H. injection H as -> ->.
      exists fmt, atch. repeat split; auto. now left.
    + simpl in H. apply get_attach_by_id_missing_shape in G.
      subst e. discriminate.
Qed.

(** ** Missing attachments *)

(** C2, as the code has it.  With sequences of equal length, let [fmt] be a
    descriptor whose [attach_id] no attachment carries, and let every
    descriptor before it resolve and, where its format is known, pass that
    format's validator.  Then the run raises the [ValidationError] whose
    message names [fmt]'s [attach_id], and it stops there: the log holds the
    lookups of the descriptors up to and including [fmt] and the validator
    calls owed to the descriptors before it, and nothing for the descriptors
    after it. *)
Theorem missing_attachment_fail_fast (data : SchemaData)
    (pre post : list V20PresFormat) (fmt : V20PresFormat) (log : list event) :
  let formats := or_empty (data_formats data) in
  let attachments := or_empty (data_request_presentations_attach data) in
  List.length formats = List.length attachments ->
  formats = pre ++ fmt :: post ->
  (forall p, In p pre ->
     exists atch, get_attach_by_id attachments (attach_id p) = Ok atch /\
       forall pf, Format_get (format p) = Some pf ->
         Format_validate_fields pf PRES_20_REQUEST (content atch) = None) ->
  (forall a, In a attachments -> ident a <> attach_id fmt) ->
  let final := validate_fields data log in
  snd final = Raise (ValidationError (no_attachment_msg (attach_id fmt))) /\
  fst final =
    fst (validate_loop attachments pre log) ++
    [Call_get_attach_by_id (attach_id fmt)] /\
  lookups (fst final) = lookups log ++ map attach_id pre ++ [attach_id fmt] /\
  dispatched (fst final) = dispatched log ++ known_dispatches attachments pre.
Proof.
  intros formats attachments Hlen Hsplit Hpre Hmiss final.
  assert (Hok : snd (validate_loop attachments pre log) = Ok tt)
    by now apply validate_loop_accepting.
  assert (Hfinal : final =
            (fst (validate_loop attachments pre log) ++
               [Call_get_attach_by_id (attach_id fmt)],
             Raise (ValidationError (no_attachment_msg (attach_id fmt))))).
  { unfold final, validate_fields. fold formats attachments.
    apply Nat.eqb_eq in Hlen. rewrite Hlen. cbv beta iota delta [negb].
    rewrite Hsplit, validate_loop_app.
    destruct (validate_loop attachments pre log) as [log' r].
    simpl in Hok. subst r. rewrite validate_loop_cons.
    unfold validate_one_cases.
    now rewrite (get_attach_by_id_missing _ _ Hmiss). }
  rewrite Hfinal. simpl fst. simpl snd.
  repeat split.
  - rewrite lookups_app, (validate_loop_Ok_lookups _ _ _ Hok). simpl.
    now rewrite <- app_assoc.
  - rewrite dispatched_app, (validate_loop_Ok_dispatched _ _ _ Hok). simpl.
    now rewrite app_nil_r.
Qed.

(** ** Default content resolution *)

Lemma find_by_ident (attachments : list Attach) (i : string) :
  option_map content
    (find (fun atch => String.eqb (ident atch) i) attachments) =
  match get_attach_by_id attachments i with
  | Ok atch => Some (content atch)
  | Raise _ => None
  end.
Proof.
  induction attachments as [| x rest IH]; simpl; [reflexivity |].
  destruct (String.eqb (ident x) i); [reflexivity | exact IH].
Qed.

Lemma Format_is_refl (pf : Format) : Format_is pf pf = true.
Proof. unfold Format_is. destruct (Format_eq_dec pf pf); congruence. Qed.

Lemma first_known_target (pre post : list V20PresFormat) (fmt : V20PresFormat)
    (pf : Format) :
  (forall p, In p pre -> Format_get (format p) = None) ->
  Format_get (format fmt) = Some pf ->
  next_or_None
    (filter truthy
       (map (fun f => Format_get (format f)) (pre ++ fmt :: post))) = Some pf /\
  find (fun f => match Format_get (format f) with
                 | Some m => Format_is m pf
                 | None => false
                 end) (pre ++ fmt :: post) = Some fmt.
Proof.
  intros Hpre Hknown. induction pre as [| x pre IH]; simpl.
  - rewrite Hknown. simpl. now rewrite Format_is_refl.
  - rewrite (Hpre x (or_introl eq_refl)). simpl.
    apply IH. intros p Hp. apply Hpre. now right.
Qed.

Lemma no_known_target (formats : list V20PresFormat) :
  (forall fmt, In fmt formats -> Format_get (format fmt) = None) ->
  filter truthy (map (fun f => Format_get (format f)) formats) = [].
Proof.
  induction formats as [| x rest IH]; intros Hall; [reflexivity |].
  simpl. rewrite (Hall x (or_introl eq_refl)). simpl.
  apply IH. intros f Hf. apply Hall. now right.
Qed.

(** C6.  Called without a target format, [attachment] settles on the first
    descriptor, in the order of [formats], whose format the registry knows,
    and returns the content of the attachment that descriptor resolves to
    (nothing if no attachment carries its identifier); when the registry
    knows none of the declared formats, in particular when [formats] is
    empty, it returns [None]. *)
Theorem attachment_default_first_known (self : V20PresRequest) :
  (forall pre fmt post pf,
     formats self = pre ++ fmt :: post ->
     (forall p, In p pre -> Format_get (format p) = None) ->
     Format_get (format fmt) = Some pf ->
     attachment self None =
       match get_attach_by_id (request_presentations_attach self)
               (attach_id fmt) with
       | Ok atch => Some (content atch)
       | Raise _ => None
       end) /\
  ((forall fmt, In fmt (formats self) -> Format_get (format fmt) = None) ->
   attachment self None = None).
Proof.
  split.
  - intros pre fmt post pf Hsplit Hpre Hknown.
    destruct (first_known_target pre post fmt pf Hpre Hknown) as [Hnext Hfind].
    unfold attachment, get_attachment_data.
    rewrite Hsplit, Hnext, Hfind. apply find_by_ident.
  - intros Hall. unfold attachment.
    now rewrite (no_known_target _ Hall).
Qed.

(** ** Signature *)

(** C8.  [add_signature] leaves the message id, [comment], [verifier_did],
    [will_confirm], [formats] and [request_presentations_attach] as they
    were. *)
Theorem add_signature_frame (self : V20PresRequest) (sign : list byte) :
  let self' := add_signature self sign in
  _id self' = _id self /\
  comment self' = comment self /\
  verifier_did self' = verifier_did self /\
  will_confirm self' = will_confirm self /\
  formats self' = formats self /\
  request_presentations_attach self' = request_presentations_attach self.
Proof. repeat split. Qed.

(** C7.  After [add_signature(sign)], base64-decoding the stored signature
    text gives back exactly the bytes [sign], whatever they are. *)
Theorem add_signature_roundtrip (self : V20PresRequest) (sign : list byte) :
  signature (add_signature self sign) =
    Some (Base64.decode_utf8 (Base64.b64encode sign)) /\
  signature_bytes (add_signature self sign) = Some sign.
Proof.
  split; [reflexivity |].
  unfold signature_bytes, add_signature. cbn [signature].
  rewrite Base64Facts.encode_utf8_decode_utf8.
  apply Base64Facts.b64decode_b64encode.
Qed.

End Properties.

(** * Worked instances on the concrete registry *)

(** One descriptor against no attachment. *)
Lemma validate_fields_length_mismatch_witness :
  List.length [Demo.fmt "a1" "known/1.0"] <> List.length (@nil (@Attach Demo.registry)) /\
  validate_fields (Demo.data [Demo.fmt "a1" "known/1.0"] []) [] =
    ([], Raise (ValidationError length_mismatch_msg)).
Proof.
  split; [discriminate |].
  apply (validate_fields_length_mismatch
           (Demo.data [Demo.fmt "a1" "known/1.0"] []) []).
  simpl. discriminate.
Defined.

(** [formats] missing, attachments stored as the empty list. *)
Lemma validate_fields_both_empty_witness :
  validate_fields
    {| data_formats := None;
       data_request_presentations_attach := Some (@nil (@Attach Demo.registry)) |}
    [] = ([], Ok tt).
Proof.
  apply (validate_fields_both_empty
           {| data_formats := None;
              data_request_presentations_attach :=
                Some (@nil (@Attach Demo.registry)) |} []).
  - left. reflexivity.
  - right. reflexivity.
Defined.

(** Two attachments under the identifier [a1]: the first one is validated. *)
Lemma duplicate_ident_first_wins_witness :
  get_attach_by_id Demo.atts_dup "a1" = Ok (Demo.atch "a1" Demo.good) /\
  dispatched (fst (run_validate (Demo.data Demo.fs_dup Demo.atts_dup))) =
    [(Demo.KNOWN, Demo.good)].
Proof.
  split; [| reflexivity].
  refine (proj1 (duplicate_ident_first_wins [] [Demo.atch "a1" Demo.other]
                   (Demo.atch "a1" Demo.good) (Demo.atch "a1" Demo.other)
                   (Demo.fmt "a1" "known/1.0") _ eq_refl _ eq_refl)).
  - intros p [].
  - left. reflexivity.
Defined.

(** C2 fails as stated: with equal lengths, the descriptor [zz] has no
    attachment, yet the run ends in the format validator's error for the
    descriptor before it, which does not name [zz]. *)
Lemma missing_attachment_masked_by_format_error :
  List.length Demo.fs_rejected_then_missing =
    List.length Demo.atts_rejected_then_missing /\
  In (Demo.fmt "zz" "known/1.0") Demo.fs_rejected_then_missing /\
  (forall a, In a Demo.atts_rejected_then_missing -> ident a <> "zz") /\
  run_validate Demo.data_rejected_then_missing =
    ([Call_get_attach_by_id "a1";
      Call_validate_fields (registry := Demo.registry) Demo.KNOWN
        PRES_20_REQUEST Demo.bad],
     Raise (FormatValidationError (registry := Demo.registry) Demo.KNOWN
              "Missing required key name")) /\
  snd (run_validate Demo.data_rejected_then_missing) <>
    Raise (ValidationError (no_attachment_msg "zz")).
Proof.
  repeat split.
  - right. left. reflexivity.
  - intros a [<- | [<- | []]]; discriminate.
  - discriminate.
Qed.

(** An accepted descriptor, then [zz] without attachment, then a descriptor
    that is never reached. *)
Lemma missing_attachment_fail_fast_witness :
  run_validate (Demo.data Demo.fs_accepted_then_missing
                  Demo.atts_accepted_then_missing) =
    ([Call_get_attach_by_id "a1";
      Call_validate_fields (registry := Demo.registry) Demo.KNOWN PRES_20_REQUEST Demo.good;
      Call_get_attach_by_id "zz"],
     Raise (ValidationError "No attachment for attach_id zz in formats")).
Proof.
  pose proof (missing_attachment_fail_fast
                (Demo.data Demo.fs_accepted_then_missing
                   Demo.atts_accepted_then_missing)
                [Demo.fmt "a1" "known/1.0"] [Demo.fmt "a2" "known/1.0"]
                (Demo.fmt "zz" "known/1.0") [] eq_refl eq_refl) as H.
  assert (Hpre : forall p, In p [Demo.fmt "a1" "known/1.0"] ->
            exists atch,
              get_attach_by_id Demo.atts_accepted_then_missing (attach_id p) =
                Ok atch /\
              forall pf, Format_get (format p) = Some pf ->
                Format_validate_fields pf PRES_20_REQUEST (content atch) = None).
  { intros p [<- | []]. exists (Demo.atch "a1" Demo.good).
    split; [reflexivity | intros pf _; reflexivity]. }
  assert (Hmiss : forall a, In a Demo.atts_accepted_then_missing ->
            ident a <> attach_id (Demo.fmt "zz" "known/1.0")).
  { intros a [<- | [<- | [<- | []]]]; discriminate. }
  destruct (H Hpre Hmiss) as (Hsnd & Hfst & _).
  unfold run_validate.
  rewrite (surjective_pairing (validate_fields _ _)), Hsnd, Hfst.
  reflexivity.
Defined.

(** The default target skips the unknown format; with no known format there
    is no content. *)
Lemma attachment_default_first_known_witness :
  attachment (Demo.request Demo.fs_mixed Demo.atts_mixed) None =
    Some Demo.good /\
  attachment (Demo.request [Demo.fmt "a1" "unknown/1.0"]
                [Demo.atch "a1" Demo.good]) None = None.
Proof.
  split.
  - refine (proj1 (attachment_default_first_known
                     (Demo.request Demo.fs_mixed Demo.atts_mixed))
              [Demo.fmt "a1" "unknown/1.0"] (Demo.fmt "a2" "known/1.0") []
              Demo.KNOWN eq_refl _ eq_refl).
    intros p [<- | []]. reflexivity.
  - apply (proj2 (attachment_default_first_known
                    (Demo.request [Demo.fmt "a1" "unknown/1.0"]
                       [Demo.atch "a1" Demo.good]))).
    intros f [<- | []]. reflexivity.
Defined.

From Stdlib Require Import Permutation.

(** * Further properties of the validator *)

Section ValidatorProperties.

Context {registry : FormatRegistry}.

Lemma or_empty_Some {A : Type} (l : list A) : or_empty (Some l) = l.
Proof. destruct l; reflexivity. Qed.

Lemma get_attach_by_id_Raise (attachments : list Attach) (i : string) (e : exn) :
  get_attach_by_id attachments i = Raise e ->
  forall a, In a attachments -> ident a <> i.
Proof.
  induction attachments as [| x rest IH]; simpl; intros H a Ha; [destruct Ha |].
  destruct (String.eqb (ident x) i) eqn:E; [discriminate |].
  destruct Ha as [<- | Ha]; [now apply String.eqb_neq | now apply IH].
Qed.

(** X1.  [get_attach_by_id] either returns an attachment of the list that
    carries the identifier asked for, or, exactly when no attachment of the
    list carries it, raises the [ValidationError] whose message names that
    identifier. *)
Theorem get_attach_by_id_spec (attachments : list Attach) (i : string) :
  match get_attach_by_id attachments i with
  | Ok atch => In atch attachments /\ ident atch = i
  | Raise e =>
      e = ValidationError (no_attachment_msg i) /\
      forall a, In a attachments -> ident a <> i
  end.
Proof.
  destruct (get_attach_by_id attachments i) as [atch | e] eqn:G.
  - exact (get_attach_by_id_Ok _ _ _ G).
  - split; [exact (get_attach_by_id_missing_shape _ _ _ G) |].
    exact (get_attach_by_id_Raise _ _ _ G).
Qed.

Lemma validate_loop_Ok_passes (attachments : list Attach)
    (formats : list V20PresFormat) (log : list event) :
  snd (validate_loop attachments formats log) = Ok tt ->
  forall fmt, In fmt formats -> passes attachments fmt.
Proof.
  revert log. induction formats as [| fmt rest IH]; intros log H f Hf.
  - destruct Hf.
  - rewrite validate_loop_cons in H. unfold validate_one_cases in H.
    destruct (get_attach_by_id attachments (attach_id fmt)) as [atch | e] eqn:G;
      [| discriminate].
    destruct (Format_get (format fmt)) as [pf |] eqn:K.
    + destruct (Format_validate_fields pf PRES_20_REQUEST (content atch)) eqn:V;
        [discriminate |].
      destruct Hf as [<- | Hf]; [| eauto].
      exists atch. split; [exact G |]. intros pf' Hpf'.
      rewrite K in Hpf'. injection Hpf' as <-. exact V.
    + destruct Hf as [<- | Hf]; [| eauto].
      exists atch. split; [exact G |]. intros pf' Hpf'.
      rewrite K in Hpf'. discriminate.
Qed.

Lemma validate_fields_equal_lengths (data : SchemaData) (log : list event) :
  List.length (or_empty (data_formats data)) =
    List.length (or_empty (data_request_presentations_attach data)) ->
  validate_fields data log =
  validate_loop (or_empty (data_request_presentations_attach data))
    (or_empty (data_formats data)) log.
Proof.
  intros Hlen. unfold validate_fields.
  apply Nat.eqb_eq in Hlen. now rewrite Hlen.
Qed.

Lemma validate_fields_unequal_lengths (data : SchemaData) (log : list event) :
  List.length (or_empty (data_formats data)) <>
    List.length (or_empty (data_request_presentations_attach data)) ->
  validate_fields data log = (log, Raise (ValidationError length_mismatch_msg)).
Proof.
  intros Hne. unfold validate_fields.
  apply Nat.eqb_neq in Hne. now rewrite Hne.
Qed.

(** X2.  [validate_fields] returns normally exactly when the two sequences
    have the same length and every descriptor resolves to an attachment
    whose content, if the descriptor's format is known to the registry, that
    format's validator accepts. *)
Theorem validate_fields_Ok_iff (data : SchemaData) (log : list event) :
  let formats := or_empty (data_formats data) in
  let attachments := or_empty (data_request_presentations_attach data) in
  snd (validate_fields data log) = Ok tt <->
  List.length formats = List.length attachments /\
  forall fmt, In fmt formats -> passes attachments fmt.
Proof.
  intros formats attachments. split.
  - intros H.
    destruct (Nat.eq_dec (List.length formats) (List.length attachments))
      as [Hlen | Hne].
    + split; [exact Hlen |].
      rewrite (validate_fields_equal_lengths data log Hlen) in H.
      exact (validate_loop_Ok_passes _ _ _ H).
    + rewrite (validate_fields_unequal_lengths data log Hne) in H.
      discriminate.
  - intros [Hlen Hall].
    rewrite (validate_fields_equal_lengths data log Hlen).
    now apply validate_loop_accepting.
Qed.

Lemma validate_loop_schema_error (attachments : list Attach)
    (formats : list V20PresFormat) (log : list event) (msg : string) :
  snd (validate_loop attachments formats log) = Raise (ValidationError msg) ->
  exists fmt,
    In fmt formats /\ msg = no_attachment_msg (attach_id fmt) /\
    forall a, In a attachments -> ident a <> attach_id fmt.
Proof.
  revert log. induction formats as [| fmt rest IH]; intros log H.
  - discriminate.
  - rewrite validate_loop_cons in H. unfold validate_one_cases in H.
    assert (Hrest : forall log',
              snd (validate_loop attachments rest log') =
                Raise (ValidationError msg) ->
              exists f, In f (fmt :: rest) /\
                msg = no_attachment_msg (attach_id f) /\
                forall a, In a attachments -> ident a <> attach_id f).
    { intros log' H'. destruct (IH log' H') as (f & Hin & Hf).
      exists f. split; [now right | exact Hf]. }
    destruct (get_attach_by_id attachments (attach_id fmt)) as [atch | e] eqn:G.
    + destruct (Format_get (format fmt)) as [pf |]; [| eauto].
      destruct (Format_validate_fields pf PRES_20_REQUEST (content atch));
        [discriminate | eauto].
    + simpl in H.
      rewrite (get_attach_by_id_missing_shape _ _ _ G) in H.
      injection H as <-.
      exists fmt. split; [now left |]. split; [reflexivity |].
      exact (get_attach_by_id_Raise _ _ _ G).
Qed.

(** X3.  An error raised by the schema itself is never spurious: it is the
    length-mismatch error only when the two lengths differ, and otherwise it
    names the [attach_id] of a descriptor of the message that no attachment
    carries. *)
Theorem validate_fields_schema_error_sound (data : SchemaData)
    (log : list event) (msg : string) :
  let formats := or_empty (data_formats data) in
  let attachments := or_empty (data_request_presentations_attach data) in
  snd (validate_fields data log) = Raise (ValidationError msg) ->
  (msg = length_mismatch_msg /\
   List.length formats <> List.length attachments) \/
  (List.length formats = List.length attachments /\
   exists fmt,
     In fmt formats /\ msg = no_attachment_msg (attach_id fmt) /\
     forall a, In a attachments -> ident a <> attach_id fmt).
Proof.
  intros formats attachments H.
  destruct (Nat.eq_dec (List.length formats) (List.length attachments))
    as [Hlen | Hne].
  - right. split; [exact Hlen |].
    rewrite (validate_fields_equal_lengths data log Hlen) in H.
    exact (validate_loop_schema_error _ _ _ _ H).
  - left. rewrite (validate_fields_unequal_lengths data log Hne) in H.
    injection H as <-. split; [reflexivity | exact Hne].
Qed.

Lemma accounted_for_weaken (attachments : list Attach)
    (formats formats' : list V20PresFormat) (ev : event) :
  (forall f, In f formats -> In f formats') ->
  accounted_for attachments formats ev ->
  accounted_for attachments formats' ev.
Proof.
  intros Hsub. destruct ev as [i | pf mt c]; simpl.
  - intros (f & Hin & Hf). eauto.
  - intros (Hmt & f & a & Hin & Hrest). split; [exact Hmt |].
    exists f, a. split; [auto | exact Hrest].
Qed.

Lemma validate_loop_accounted_for (attachments : list Attach)
    (all formats : list V20PresFormat) (log : list event) :
  (forall f, In f formats -> In f all) ->
  Forall (accounted_for attachments all) log ->
  Forall (accounted_for attachments all)
    (fst (validate_loop attachments formats log)).
Proof.
  revert log. induction formats as [| fmt rest IH]; intros log Hsub Hlog.
  - exact Hlog.
  - assert (Hlookup : Forall (accounted_for attachments all)
              (log ++ [Call_get_attach_by_id (attach_id fmt)])).
    { apply Forall_app. split; [exact Hlog |].
      constructor; [| constructor]. simpl.
      exists fmt. split; [apply Hsub; now left | reflexivity]. }
    assert (Hsub' : forall f, In f rest -> In f all)
      by (intros f Hf; apply Hsub; now right).
    rewrite validate_loop_cons. unfold validate_one_cases.
    destruct (get_attach_by_id attachments (attach_id fmt)) as [atch | e] eqn:G;
      [| exact Hlookup].
    destruct (Format_get (format fmt)) as [pf |] eqn:K; [| now apply IH].
    assert (Hcall : Forall (accounted_for attachments all)
              ((log ++ [Call_get_attach_by_id (attach_id fmt)]) ++
               [Call_validate_fields pf PRES_20_REQUEST (content atch)])).
    { apply Forall_app. split; [exact Hlookup |].
      constructor; [| constructor]. simpl. split; [reflexivity |].
      exists fmt, atch. repeat split; auto. apply Hsub. now left. }
    destruct (Format_validate_fields pf PRES_20_REQUEST (content atch));
      [exact Hcall | now apply IH].
Qed.

(** X4.  Whatever the outcome, every call a run makes is accounted for by
    the message: each lookup is for the [attach_id] of one of its
    descriptors, and each validator call is made with the request message
    type, for a descriptor whose format the registry maps to that validator,
    on the content of the attachment that descriptor's [attach_id] resolves
    to (the first one carrying it). *)
Theorem validate_fields_calls_accounted_for (data : SchemaData) :
  Forall
    (accounted_for (or_empty (data_request_presentations_attach data))
       (or_empty (data_formats data)))
    (fst (run_validate data)).
Proof.
  unfold run_validate, validate_fields.
  destruct (negb _); [constructor |].
  apply validate_loop_accounted_for; [auto | constructor].
Qed.

Lemma validate_loop_call_counts (attachments : list Attach)
    (formats : list V20PresFormat) (log : list event) :
  let final := fst (validate_loop attachments formats log) in
  List.length (lookups final) <=
    List.length (lookups log) + List.length formats /\
  List.length (dispatched final) + List.length (lookups log) <=
    List.length (dispatched log) + List.length (lookups final).
Proof.
  revert log. induction formats as [| fmt rest IH]; intros log; simpl.
  - lia.
  - pose proof (validate_loop_cons attachments fmt rest log) as E.
    simpl in E. rewrite E. clear E. unfold validate_one_cases.
    destruct (get_attach_by_id attachments (attach_id fmt)) as [atch | e].
    + destruct (Format_get (format fmt)) as [pf |].
      * destruct (Format_validate_fields pf PRES_20_REQUEST (content atch)).
        -- simpl fst. rewrite !lookups_app, !dispatched_app, !length_app.
           simpl. lia.
        -- specialize (IH ((log ++ [Call_get_attach_by_id (attach_id fmt)]) ++
                   [Call_validate_fields pf PRES_20_REQUEST (content atch)])).
           simpl in IH.
           rewrite !lookups_app, !dispatched_app, !length_app in IH.
           simpl in IH. lia.
      * specialize (IH (log ++ [Call_get_attach_by_id (attach_id fmt)])).
        simpl in IH.
        rewrite !lookups_app, !dispatched_app, !length_app in IH.
        simpl in IH. lia.
    + simpl fst. rewrite !lookups_app, !dispatched_app, !length_app.
      simpl. lia.
Qed.

(** X5.  A run makes at most one lookup per descriptor and at most one
    validator call per lookup, so the work is bounded by the number of
    descriptors whatever the outcome. *)
Theorem validate_fields_call_counts (data : SchemaData) :
  let final := fst (run_validate data) in
  List.length (lookups final) <= List.length (or_empty (data_formats data)) /\
  List.length (dispatched final) <= List.length (lookups final) /\
  List.length final <= 2 * List.length (or_empty (data_formats data)).
Proof.
  unfold run_validate, validate_fields.
  destruct (negb _); [simpl; lia |].
  pose proof (validate_loop_call_counts
                (or_empty (data_request_presentations_attach data))
                (or_empty (data_formats data)) []) as [H1 H2].
  simpl in H1, H2.
  assert (Hsplit : forall l : list event,
            List.length l = List.length (lookups l) + List.length (dispatched l)).
  { induction l as [| [i | pf mt c] l IHl]; simpl; lia. }
  rewrite (Hsplit (fst (validate_loop _ _ []))). simpl. lia.
Qed.

(** ** Correlation is by identifier, not by position *)

Lemma ident_unique (attachments : list Attach) (a a' : Attach) :
  NoDup (map ident attachments) ->
  In a attachments -> In a' attachments -> ident a = ident a' -> a = a'.
Proof.
  induction attachments as [| x rest IH]; simpl; intros Hnd Ha Ha' Hid;
    [destruct Ha |].
  inversion Hnd as [| ? ? Hnotin Hnd']; subst.
  destruct Ha as [<- | Ha], Ha' as [<- | Ha'].
  - reflexivity.
  - exfalso. apply Hnotin. rewrite Hid. now apply in_map.
  - exfalso. apply Hnotin. rewrite <- Hid. now apply in_map.
  - now apply IH.
Qed.

Lemma get_attach_by_id_permuted (attachments attachments' : list Attach)
    (i : string) :
  NoDup (map ident attachments) ->
  Permutation attachments attachments' ->
  get_attach_by_id attachments i = get_attach_by_id attachments' i.
Proof.
  intros Hnd Hperm.
  destruct (get_attach_by_id attachments i) as [a | e] eqn:G,
           (get_attach_by_id attachments' i) as [a' | e'] eqn:G'.
  - destruct (get_attach_by_id_Ok _ _ _ G) as [Hin Hid].
    destruct (get_attach_by_id_Ok _ _ _ G') as [Hin' Hid'].
    f_equal. apply (ident_unique attachments); auto.
    + exact (Permutation_in _ (Permutation_sym Hperm) Hin').
    + congruence.
  - destruct (get_attach_by_id_Ok _ _ _ G) as [Hin Hid].
    exfalso.
    exact (get_attach_by_id_Raise _ _ _ G' a (Permutation_in _ Hperm Hin) Hid).
  - destruct (get_attach_by_id_Ok _ _ _ G') as [Hin' Hid'].
    exfalso.
    exact (get_attach_by_id_Raise _ _ _ G a'
             (Permutation_in _ (Permutation_sym Hperm) Hin') Hid').
  - rewrite (get_attach_by_id_missing_shape _ _ _ G),
      (get_attach_by_id_missing_shape _ _ _ G').
    reflexivity.
Qed.

Lemma validate_loop_same_lookups (attachments attachments' : list Attach)
    (formats : list V20PresFormat) (log : list event) :
  (forall i, get_attach_by_id attachments i = get_attach_by_id attachments' i) ->
  validate_loop attachments formats log =
  validate_loop attachments' formats log.
Proof.
  intros Hsame. revert log.
  induction formats as [| fmt rest IH]; intros log; [reflexivity |].
  rewrite !validate_loop_cons. unfold validate_one_cases.
  rewrite <- (Hsame (attach_id fmt)).
  destruct (get_attach_by_id attachments (attach_id fmt)) as [atch | e];
    [| reflexivity].
  destruct (Format_get (format fmt)) as [pf |]; [| apply IH].
  destruct (Format_validate_fields pf PRES_20_REQUEST (content atch));
    [reflexivity | apply IH].
Qed.

(** X6.  When the attachments carry pairwise different identifiers, their
    order does not matter: validating the same descriptors against any
    rearrangement of the attachments makes the same calls and ends the same
    way. *)
Theorem validate_fields_attachment_order (data data' : SchemaData)
    (log : list event) :
  data_formats data = data_formats data' ->
  NoDup (map ident (or_empty (data_request_presentations_attach data))) ->
  Permutation (or_empty (data_request_presentations_attach data))
    (or_empty (data_request_presentations_attach data')) ->
  validate_fields data log = validate_fields data' log.
Proof.
  intros Hfs Hnd Hperm. unfold validate_fields.
  rewrite <- Hfs, <- (Permutation_length Hperm).
  destruct (negb _); [reflexivity |].
  apply validate_loop_same_lookups. intros i.
  now apply get_attach_by_id_permuted.
Qed.

Lemma get_attach_by_id_other (l post : list Attach) (x x' : Attach)
    (i : string) :
  ident x' = ident x -> i <> ident x ->
  get_attach_by_id (l ++ x :: post) i = get_attach_by_id (l ++ x' :: post) i.
Proof.
  intros Hid Hne. induction l as [| h l IH]; simpl.
  - rewrite Hid.
    assert (E : String.eqb (ident x) i = false)
      by (apply String.eqb_neq; congruence).
    now rewrite E.
  - destruct (String.eqb (ident h) i); [reflexivity | exact IH].
Qed.

Lemma get_attach_by_id_shadowed (l post : list Attach) (x x' : Attach)
    (i : string) :
  ident x' = ident x ->
  (exists e, In e l /\ ident e = ident x) ->
  get_attach_by_id (l ++ x :: post) i = get_attach_by_id (l ++ x' :: post) i.
Proof.
  intros Hid. induction l as [| h l IH]; intros (e & Hin & He);
    [destruct Hin |].
  simpl. destruct (String.eqb (ident h) i) eqn:E; [reflexivity |].
  destruct Hin as [-> | Hin].
  - apply get_attach_by_id_other; [exact Hid |].
    apply String.eqb_neq in E. congruence.
  - apply IH. eauto.
Qed.

(** X15.  An attachment that comes after another attachment with the same
    identifier is dead weight for the validator: replacing it by any
    attachment with that identifier, whatever its content, changes neither
    the calls made nor the outcome.  Its content is never validated. *)
Theorem validate_fields_shadowed_duplicate (formats : list V20PresFormat)
    (before after : list Attach) (dup dup' : Attach) (log : list event) :
  (exists first, In first before /\ ident first = ident dup) ->
  ident dup' = ident dup ->
  validate_fields
    {| data_formats := Some formats;
       data_request_presentations_attach := Some (before ++ dup :: after) |}
    log =
  validate_fields
    {| data_formats := Some formats;
       data_request_presentations_attach := Some (before ++ dup' :: after) |}
    log.
Proof.
  intros Hfirst Hid. unfold validate_fields.
  cbn [data_formats data_request_presentations_attach].
  rewrite !or_empty_Some, !length_app. cbn [List.length].
  destruct (negb _); [reflexivity |].
  apply validate_loop_same_lookups. intros i.
  now apply get_attach_by_id_shadowed.
Qed.

(** ** A rejected content stops the run *)

(** X16.  With sequences of equal length, let every descriptor before [fmt]
    pass, and let [fmt] resolve to an attachment whose content the validator
    of [fmt]'s format rejects.  Then the run raises that validator's error,
    for that format and with the validator's reason, right after the
    validator call, and no later descriptor is looked up or validated. *)
Theorem rejected_content_fail_fast (data : SchemaData)
    (pre post : list V20PresFormat) (fmt : V20PresFormat) (atch : Attach)
    (pf : Format) (reason : string) (log : list event) :
  let formats := or_empty (data_formats data) in
  let attachments := or_empty (data_request_presentations_attach data) in
  List.length formats = List.length attachments ->
  formats = pre ++ fmt :: post ->
  (forall p, In p pre -> passes attachments p) ->
  get_attach_by_id attachments (attach_id fmt) = Ok atch ->
  Format_get (format fmt) = Some pf ->
  Format_validate_fields pf PRES_20_REQUEST (content atch) = Some reason ->
  validate_fields data log =
    (fst (validate_loop attachments pre log) ++
       [Call_get_attach_by_id (attach_id fmt);
        Call_validate_fields pf PRES_20_REQUEST (content atch)],
     Raise (FormatValidationError pf reason)) /\
  lookups (fst (validate_fields data log)) =
    lookups log ++ map attach_id pre ++ [attach_id fmt].
Proof.
  intros formats attachments Hlen Hsplit Hpre Hget Hknown Hrej.
  assert (Hok : snd (validate_loop attachments pre log) = Ok tt)
    by now apply validate_loop_accepting.
  assert (Hfinal : validate_fields data log =
            (fst (validate_loop attachments pre log) ++
               [Call_get_attach_by_id (attach_id fmt);
                Call_validate_fields pf PRES_20_REQUEST (content atch)],
             Raise (FormatValidationError pf reason))).
  { rewrite (validate_fields_equal_lengths data log Hlen).
    fold formats attachments.
    rewrite Hsplit, validate_loop_app.
    destruct (validate_loop attachments pre log) as [log' r].
    simpl in Hok. subst r. rewrite validate_loop_cons.
    unfold validate_one_cases. rewrite Hget, Hknown, Hrej.
    simpl. now rewrite <- app_assoc. }
  split; [exact Hfinal |].
  rewrite Hfinal. simpl fst.
  rewrite lookups_app, (validate_loop_Ok_lookups _ _ _ Hok). simpl.
  now rewrite <- app_assoc.
Qed.

(** ** Construction and validation *)

(** X17.  [__init__] and the validator coerce a missing, [None] or empty
    sequence the same way: the message object built from optional [formats]
    and attachments holds the lists the validator would use, and validating
    the object gives exactly what validating those optional values gives. *)
Theorem init_agrees_with_validator (id : string)
    (comment' verifier_did' : option string) (will_confirm' : option bool)
    (formats' : option (list V20PresFormat)) (signature' : option string)
    (attachments' : option (list Attach)) (log : list event) :
  let self := V20PresRequest_init id comment' verifier_did' will_confirm'
                formats' signature' attachments' in
  formats self = or_empty formats' /\
  request_presentations_attach self = or_empty attachments' /\
  validate_fields (schema_data_of self) log =
  validate_fields
    {| data_formats := formats';
       data_request_presentations_attach := attachments' |} log.
Proof.
  assert (Hcoerce : forall (A : Type) (o : option (list A)),
            match o with Some l => l | None => [] end = or_empty o).
  { intros A [l |]; [now rewrite or_empty_Some | reflexivity]. }
  intros self. unfold self, V20PresRequest_init, schema_data_of, validate_fields.
  cbn [formats request_presentations_attach data_formats
       data_request_presentations_attach].
  rewrite !or_empty_Some, !Hcoerce. auto.
Qed.

(** ** The schema's error messages *)

Lemma string_length_append (s1 s2 : string) :
  String.length (s1 ++ s2)%string = String.length s1 + String.length s2.
Proof. induction s1 as [| c s1 IH]; simpl; [reflexivity | now rewrite IH]. Qed.

Lemma string_append_cancel_r (s i j : string) :
  (i ++ s)%string = (j ++ s)%string -> i = j.
Proof.
  intros H.
  assert (Hlen : String.length i = String.length j).
  { apply (f_equal String.length) in H.
    rewrite !string_length_append in H. lia. }
  revert j H Hlen. induction i as [| c i IH]; intros [| d j] H Hlen;
    try discriminate; [reflexivity |].
  simpl in H, Hlen. injection H as -> H. f_equal.
  apply IH; [exact H | lia].
Qed.

(** X7.  The two messages of the schema tell the failures apart: the
    missing-attachment message determines the [attach_id] it was built from,
    and it is never the length-mismatch message. *)
Theorem schema_error_messages_distinct :
  (forall i j, no_attachment_msg i = no_attachment_msg j -> i = j) /\
  (forall i, no_attachment_msg i <> length_mismatch_msg).
Proof.
  split.
  - intros i j H. unfold no_attachment_msg in H. simpl in H.
    injection H as H. exact (string_append_cancel_r _ _ _ H).
  - intros i H. unfold no_attachment_msg, length_mismatch_msg in H.
    simpl in H. discriminate.
Qed.

(** ** Validation and content resolution together *)

Lemma Format_is_true (a b : Format) : Format_is a b = true -> a = b.
Proof. unfold Format_is. destruct (Format_eq_dec a b); [auto | discriminate]. Qed.

Lemma validate_fields_Ok_passes (self : V20PresRequest) (log : list event) :
  snd (validate_fields (schema_data_of self) log) = Ok tt ->
  forall fmt, In fmt (formats self) ->
    passes (request_presentations_attach self) fmt.
Proof.
  intros H.
  destruct (Nat.eq_dec
              (List.length (or_empty (data_formats (schema_data_of self))))
              (List.length (or_empty (data_request_presentations_attach
                                        (schema_data_of self)))))
    as [Hlen | Hne].
  - rewrite (validate_fields_equal_lengths _ log Hlen) in H.
    unfold schema_data_of in H.
    cbn [data_formats data_request_presentations_attach] in H.
    rewrite !or_empty_Some in H.
    exact (validate_loop_Ok_passes _ _ _ H).
  - rewrite (validate_fields_unequal_lengths _ log Hne) in H. discriminate.
Qed.

Lemma get_attachment_data_Some (tf : Format) (fs : list V20PresFormat)
    (attachments : list Attach) (c : Content) :
  get_attachment_data tf fs attachments = Some c ->
  exists fmt atch,
    In fmt fs /\ Format_get (format fmt) = Some tf /\
    get_attach_by_id attachments (attach_id fmt) = Ok atch /\
    content atch = c.
Proof.
  unfold get_attachment_data.
  destruct (find _ fs) as [d |] eqn:F; [| discriminate].
  apply find_some in F. destruct F as [Hin Hpred].
  destruct (Format_get (format d)) as [f |] eqn:K; [| discriminate].
  apply Format_is_true in Hpred. subst f.
  rewrite find_by_ident.
  destruct (get_attach_by_id attachments (attach_id d)) as [atch | e] eqn:G;
    [| discriminate].
  intros [= <-]. exists d, atch. auto.
Qed.

(** X8.  Once a message has passed [validate_fields], whatever content
    [attachment] returns, for an explicit target format or for the default
    one, is a content that the target format's validator accepts for the
    request message type; with an explicit target the validator is that
    target's.  (The content lookup is the helper's, as section 4.3 of the
    specification describes it.) *)
Theorem validated_attachment_accepted (self : V20PresRequest)
    (target : option Format) (c : Content) (log : list event) :
  snd (validate_fields (schema_data_of self) log) = Ok tt ->
  attachment self target = Some c ->
  exists fmt pf,
    In fmt (formats self) /\ Format_get (format fmt) = Some pf /\
    (forall f, target = Some f -> pf = f) /\
    Format_validate_fields pf PRES_20_REQUEST c = None.
Proof.
  intros Hok Hatt.
  pose proof (validate_fields_Ok_passes self log Hok) as Hpass.
  assert (Hgen : forall tf,
            get_attachment_data tf (formats self)
              (request_presentations_attach self) = Some c ->
            exists fmt,
              In fmt (formats self) /\ Format_get (format fmt) = Some tf /\
              Format_validate_fields tf PRES_20_REQUEST c = None).
  { intros tf Hget.
    destruct (get_attachment_data_Some _ _ _ _ Hget)
      as (d & atch & Hin & K & G & <-).
    destruct (Hpass d Hin) as (atch' & G' & Hacc).
    rewrite G in G'. injection G' as <-.
    exists d. auto. }
  unfold attachment in Hatt.
  destruct target as [f |].
  - destruct (Hgen f Hatt) as (d & Hin & K & V).
    exists d, f. repeat split; auto. now intros f' [= <-].
  - destruct (next_or_None _) as [tf |]; [| discriminate].
    destruct (Hgen tf Hatt) as (d & Hin & K & V).
    exists d, tf. repeat split; auto. discriminate.
Qed.

(** ** The stored signature text *)

Lemma b64encode_injective (s1 s2 : list byte) :
  Base64.b64encode s1 = Base64.b64encode s2 -> s1 = s2.
Proof.
  intros H. apply (f_equal Base64.b64decode) in H.
  rewrite !Base64Facts.b64decode_b64encode in H. now injection H.
Qed.

(** X9.  Different byte strings never give the same signature text: if two
    calls of [add_signature], on any two messages, store the same text, the
    bytes signed were the same. *)
Theorem add_signature_injective (self1 self2 : V20PresRequest)
    (sign1 sign2 : list byte) :
  signature (add_signature self1 sign1) =
    signature (add_signature self2 sign2) ->
  sign1 = sign2.
Proof.
  unfold add_signature. cbn [signature]. intros [= H].
  apply b64encode_injective.
  rewrite <- (Base64Facts.encode_utf8_decode_utf8 (Base64.b64encode sign1)),
    <- (Base64Facts.encode_utf8_decode_utf8 (Base64.b64encode sign2)).
  now rewrite H.
Qed.

Lemma string_of_list_byte_length (l : list byte) :
  String.length (string_of_list_byte l) = List.length l.
Proof.
  unfold string_of_list_byte.
  induction l as [| b l IH]; simpl; [reflexivity | now rewrite IH].
Qed.

Lemma b64encode_length (s : list byte) :
  List.length (Base64.b64encode s) = 4 * ((List.length s + 2) / 3).
Proof.
  induction s as [| b1 | b1 b2 | b1 b2 b3 rest IH]
    using Base64Facts.list_ind3; try reflexivity.
  cbn [Base64.b64encode List.length]. rewrite IH.
  replace (S (S (S (List.length rest))) + 2)
    with ((List.length rest + 2) + 1 * 3) by lia.
  rewrite Nat.div_add by discriminate. lia.
Qed.

(** X10.  The signature text stored for [n] bytes has [4 * ceil(n / 3)]
    characters: always a whole number of four-character groups, and empty
    only for the empty byte string. *)
Theorem add_signature_length (self : V20PresRequest) (sign : list byte) :
  exists text,
    signature (add_signature self sign) = Some text /\
    String.length text = 4 * ((List.length sign + 2) / 3) /\
    (text = "" <-> sign = []).
Proof.
  exists (Base64.decode_utf8 (Base64.b64encode sign)).
  split; [reflexivity |]. unfold Base64.decode_utf8. split.
  - now rewrite string_of_list_byte_length, b64encode_length.
  - split.
    + intros H. apply (f_equal String.length) in H.
      rewrite string_of_list_byte_length in H.
      destruct sign as [| b1 [| b2 [| b3 rest]]];
        [reflexivity | discriminate ..].
    + intros ->. reflexivity.
Qed.

Lemma b2a_in_table (n : N) : (n < 64)%N -> In (Base64.b2a n) Base64.table_b2a.
Proof.
  intros Hn. unfold Base64.b2a. apply nth_In.
  change (List.length Base64.table_b2a) with 64. lia.
Qed.

(** X11.  The signature text is transport safe: every character of it is
    one of the 64 characters of the base64 alphabet or the padding
    character [=]. *)
Theorem add_signature_alphabet (self : V20PresRequest) (sign : list byte) :
  exists text,
    signature (add_signature self sign) = Some text /\
    Forall (fun c => In c Base64.table_b2a \/ c = Base64.pad)
      (list_byte_of_string text).
Proof.
  exists (Base64.decode_utf8 (Base64.b64encode sign)).
  split; [reflexivity |].
  unfold Base64.decode_utf8. rewrite list_byte_of_string_of_list_byte.
  induction sign as [| b1 | b1 b2 | b1 b2 b3 rest IH]
    using Base64Facts.list_ind3.
  - constructor.
  - pose proof (Byte.to_N_bounded b1) as H1.
    destruct (Base64Facts.sextets_bounded (Byte.to_N b1) 0 0 H1)
      as (B1 & B2 & _); [lia | lia |].
    cbn [Base64.b64encode].
    repeat (apply Forall_cons;
              [solve [right; reflexivity | left; now apply b2a_in_table] |]).
    apply Forall_nil.
  - pose proof (Byte.to_N_bounded b1) as H1.
    pose proof (Byte.to_N_bounded b2) as H2.
    destruct (Base64Facts.sextets_bounded (Byte.to_N b1) (Byte.to_N b2) 0 H1 H2)
      as (B1 & B2 & B3 & _); [lia |].
    cbn [Base64.b64encode].
    repeat (apply Forall_cons;
              [solve [right; reflexivity | left; now apply b2a_in_table] |]).
    apply Forall_nil.
  - pose proof (Byte.to_N_bounded b1) as H1.
    pose proof (Byte.to_N_bounded b2) as H2.
    pose proof (Byte.to_N_bounded b3) as H3.
    destruct (Base64Facts.sextets_bounded _ _ _ H1 H2 H3) as (B1 & B2 & B3 & B4).
    cbn [Base64.b64encode].
    repeat (apply Forall_cons; [left; now apply b2a_in_table |]). exact IH.
Qed.

End ValidatorProperties.

(** * Properties of the DID key plugin's [setup] *)

Module DidKeyPluginFacts.

Import DidKeyPlugin.

(** Unfold [setup] down to the answers of the context. *)
Ltac run_setup :=
  unfold setup, LOGGER_info, call_inject_or, call_inject, call_register,
    require, bind, emit, ret, raise, provided, lacking, py_not in *;
  simpl in *.

Ltac by_answers :=
  match goal with
  | c : InjectionContext |- _ =>
      destruct (inject_or c DIDMethods) as [| dm];
      destruct (inject c ProtocolRegistry) as [[| [|]] | e1];
      destruct (inject c PluginRegistry) as [[| [|]] | e2];
      destruct (inject c EventBus) as [[| [|]] | e3]
  end.

(** X12.  [setup] returns normally exactly when the context has a
    [DIDMethods] registry bound and hands back a true object for each of
    [ProtocolRegistry], [PluginRegistry] and [EventBus]; it has then logged
    the start message, registered the [key] method (key types ED25519 and
    BLS12381G2, no rotation), asked for the three registries in that order,
    and logged the completion message, and nothing else. *)
Theorem setup_Ok_iff (context : InjectionContext) (log : list event) :
  (snd (setup context log) = Ok tt <->
   inject_or context DIDMethods <> PyNone /\
   provided context ProtocolRegistry /\
   provided context PluginRegistry /\
   provided context EventBus) /\
  (snd (setup context log) = Ok tt ->
   fst (setup context log) =
     log ++
     [Info start_msg; Call_inject_or DIDMethods; Call_register KEY;
      Call_inject ProtocolRegistry; Call_inject PluginRegistry;
      Call_inject EventBus; Info complete_msg]).
Proof.
  run_setup. by_answers; simpl; split;
    try (intros; discriminate);
    try (split; [intros; discriminate |
                 intros (H0 & H1 & H2 & H3); congruence]).
  - split; [| reflexivity]. intros _. repeat split. discriminate.
  - intros _. now rewrite <- !app_assoc.
Qed.

(** X13.  The registration is not guarded by the registry checks.  With no
    [DIDMethods] registry bound, [setup] fails with an [AttributeError] right
    after the start message, before any registry is asked for.  With one
    bound, the [key] method is registered before the first registry is asked
    for, whatever the registries answer, so a [setup] that then fails leaves
    the method registered. *)
Theorem setup_registers_before_checks (context : InjectionContext)
    (log : list event) :
  (inject_or context DIDMethods = PyNone ->
   setup context log =
     (log ++ [Info start_msg; Call_inject_or DIDMethods],
      Raise (AttributeError "'NoneType' object has no attribute 'register'"))) /\
  (inject_or context DIDMethods <> PyNone ->
   exists later,
     fst (setup context log) =
       log ++
       [Info start_msg; Call_inject_or DIDMethods; Call_register KEY;
        Call_inject ProtocolRegistry] ++ later).
Proof.
  run_setup. split.
  - intros ->. simpl. now rewrite <- app_assoc.
  - intros Hbound.
    by_answers; simpl; try congruence;
      rewrite <- ?app_assoc; simpl; eexists;
      (apply f_equal; do 4 apply f_equal; reflexivity).
Qed.

(** X14.  The registries are checked in the order [ProtocolRegistry],
    [PluginRegistry], [EventBus], and the first one for which the context
    hands back [None] or a false object decides the [ValueError]: its message
    names that registry whatever the later ones would answer, and the
    completion message is not logged. *)
Theorem setup_first_missing_registry (context : InjectionContext) :
  inject_or context DIDMethods <> PyNone ->
  (lacking context ProtocolRegistry ->
   snd (setup context []) =
     Raise (ValueError "ProtocolRegistry missing in context")) /\
  (provided context ProtocolRegistry -> lacking context PluginRegistry ->
   snd (setup context []) =
     Raise (ValueError "PluginRegistry missing in context")) /\
  (provided context ProtocolRegistry -> provided context PluginRegistry ->
   lacking context EventBus ->
   snd (setup context []) =
     Raise (ValueError "EventBus missing in context")) /\
  (forall msg, snd (setup context []) = Raise (ValueError msg) ->
     ~ In (Info complete_msg) (fst (setup context []))).
Proof.
  intros Hbound. run_setup.
  destruct (inject_or context DIDMethods) as [| dm]; [congruence |].
  simpl. repeat split.
  - intros (v & -> & Hv). simpl. destruct v as [| [|]]; simpl in *;
      [reflexivity | discriminate | reflexivity].
  - intros -> (v & -> & Hv). simpl. destruct v as [| [|]]; simpl in *;
      [reflexivity | discriminate | reflexivity].
  - intros -> -> (v & -> & Hv). simpl. destruct v as [| [|]]; simpl in *;
      [reflexivity | discriminate | reflexivity].
  - intros msg.
    destruct (inject context ProtocolRegistry) as [[| [|]] | e1];
      destruct (inject context PluginRegistry) as [[| [|]] | e2];
      destruct (inject context EventBus) as [[| [|]] | e3];
      simpl; intros H; try discriminate;
      intros Hin; repeat (destruct Hin as [Hin | Hin]; [discriminate |]);
      exact Hin.
Qed.

End DidKeyPluginFacts.

(** * Further worked instances *)

(** A single descriptor whose attachment is missing: the message names it. *)
Lemma validate_fields_schema_error_sound_witness :
  snd (validate_fields Demo.data_known_missing []) =
    Raise (ValidationError "No attachment for attach_id a1 in formats") /\
  ((("No attachment for attach_id a1 in formats" = length_mismatch_msg /\
     List.length (or_empty (data_formats Demo.data_known_missing)) <>
       List.length
         (or_empty (data_request_presentations_attach Demo.data_known_missing)))
    \/
    (List.length (or_empty (data_formats Demo.data_known_missing)) =
       List.length
         (or_empty (data_request_presentations_attach Demo.data_known_missing)) /\
     exists fmt,
       In fmt (or_empty (data_formats Demo.data_known_missing)) /\
       "No attachment for attach_id a1 in formats" =
         no_attachment_msg (attach_id fmt) /\
       forall a,
         In a (or_empty
                 (data_request_presentations_attach Demo.data_known_missing)) ->
         ident a <> attach_id fmt))).
Proof.
  split; [reflexivity |].
  apply (validate_fields_schema_error_sound Demo.data_known_missing []
           "No attachment for attach_id a1 in formats").
  reflexivity.
Defined.

(** The two attachments of the mixed message, swapped. *)
Lemma validate_fields_attachment_order_witness :
  validate_fields (Demo.data Demo.fs_mixed Demo.atts_mixed) [] =
  validate_fields
    (Demo.data Demo.fs_mixed [Demo.atch "a2" Demo.good; Demo.atch "a1" Demo.bad])
    [].
Proof.
  apply (validate_fields_attachment_order
           (Demo.data Demo.fs_mixed Demo.atts_mixed)
           (Demo.data Demo.fs_mixed
              [Demo.atch "a2" Demo.good; Demo.atch "a1" Demo.bad]) []).
  - reflexivity.
  - simpl. constructor.
    + intros [H | []]. discriminate.
    + constructor; [intros [] | constructor].
  - apply perm_swap.
Defined.

(** The mixed message validates, and its default content is one the [known/]
    validator accepts. *)
Lemma validated_attachment_accepted_witness :
  attachment (Demo.request Demo.fs_mixed Demo.atts_mixed) None =
    Some Demo.good /\
  exists fmt pf,
    In fmt Demo.fs_mixed /\ Format_get (format fmt) = Some pf /\
    (forall f, @None (@Format Demo.registry) = Some f -> pf = f) /\
    Format_validate_fields pf PRES_20_REQUEST Demo.good = None.
Proof.
  split; [reflexivity |].
  exact (validated_attachment_accepted
           (Demo.request Demo.fs_mixed Demo.atts_mixed) None Demo.good []
           eq_refl eq_refl).
Defined.

(** Two messages signed with the same three bytes. *)
Lemma add_signature_injective_witness :
  ["001"%byte; "002"%byte; "003"%byte] = ["001"%byte; "002"%byte; "003"%byte].
Proof.
  exact (add_signature_injective
           (Demo.request Demo.fs_mixed Demo.atts_mixed)
           (Demo.request Demo.fs_dup Demo.atts_dup)
           ["001"%byte; "002"%byte; "003"%byte]
           ["001"%byte; "002"%byte; "003"%byte] eq_refl).
Defined.

(** Everything bound: [setup] returns. *)
Lemma setup_Ok_iff_witness :
  snd (DidKeyPlugin.setup DidKeyPlugin.full_context []) = DidKeyPlugin.Ok tt.
Proof.
  apply (proj1 (DidKeyPluginFacts.setup_Ok_iff DidKeyPlugin.full_context [])).
  repeat split. discriminate.
Defined.

(** No [DIDMethods] registry bound. *)
Lemma setup_registers_before_checks_witness :
  DidKeyPlugin.setup DidKeyPlugin.no_did_methods [] =
    ([DidKeyPlugin.Info DidKeyPlugin.start_msg;
      DidKeyPlugin.Call_inject_or DidKeyPlugin.DIDMethods],
     DidKeyPlugin.Raise
       (DidKeyPlugin.AttributeError
          "'NoneType' object has no attribute 'register'")).
Proof.
  exact (proj1 (DidKeyPluginFacts.setup_registers_before_checks
                  DidKeyPlugin.no_did_methods []) eq_refl).
Defined.

(** A protocol registry but no plugin registry. *)
Lemma setup_first_missing_registry_witness :
  snd (DidKeyPlugin.setup DidKeyPlugin.no_plugin_registry []) =
    DidKeyPlugin.Raise
      (DidKeyPlugin.ValueError "PluginRegistry missing in context").
Proof.
  assert (Hbound : DidKeyPlugin.inject_or DidKeyPlugin.no_plugin_registry
                     DidKeyPlugin.DIDMethods <> DidKeyPlugin.PyNone)
    by discriminate.
  destruct (DidKeyPluginFacts.setup_first_missing_registry
              DidKeyPlugin.no_plugin_registry Hbound) as (_ & Hplugin & _).
  apply Hplugin.
  - reflexivity.
  - exists DidKeyPlugin.PyNone. split; reflexivity.
Defined.

(** The second [a1] attachment swapped for one with a rejected content. *)
Lemma validate_fields_shadowed_duplicate_witness :
  validate_fields (Demo.data Demo.fs_dup Demo.atts_dup) [] =
  validate_fields
    (Demo.data Demo.fs_dup [Demo.atch "a1" Demo.good; Demo.atch "a1" Demo.bad])
    [].
Proof.
  apply (validate_fields_shadowed_duplicate Demo.fs_dup
           [Demo.atch "a1" Demo.good] [] (Demo.atch "a1" Demo.other)
           (Demo.atch "a1" Demo.bad) []).
  - exists (Demo.atch "a1" Demo.good). split; [now left | reflexivity].
  - reflexivity.
Defined.

(** The first descriptor's content is rejected; [zz] is never looked up. *)
Lemma rejected_content_fail_fast_witness :
  lookups (fst (validate_fields Demo.data_rejected_then_missing [])) = ["a1"].
Proof.
  refine (proj2 (rejected_content_fail_fast Demo.data_rejected_then_missing
                   [] [Demo.fmt "zz" "known/1.0"] (Demo.fmt "a1" "known/1.0")
                   (Demo.atch "a1" Demo.bad) Demo.KNOWN
                   "Missing required key name" []
                   eq_refl eq_refl _ eq_refl eq_refl eq_refl)).
  intros p [].
Defined.

(** * Whole runs: correlation, dispatch and repeated validation *)

Section RunProperties.

Context {registry : FormatRegistry}.

Lemma passes_of_accepted (attachments : list Attach) (fmt : V20PresFormat) :
  (exists atch, get_attach_by_id attachments (attach_id fmt) = Ok atch) ->
  accepted attachments fmt -> passes attachments fmt.
Proof.
  intros [atch G] Hacc. exists atch. split; [exact G |].
  intros pf K. exact (Hacc atch pf G K).
Qed.

(** Either every content is accepted, or there is a first descriptor whose
    content its validator rejects. *)
Lemma accepted_or_first_rejected (attachments : list Attach)
    (formats : list V20PresFormat) :
  (forall fmt, In fmt formats -> accepted attachments fmt) \/
  exists pre fmt post atch pf reason,
    formats = pre ++ fmt :: post /\
    (forall p, In p pre -> accepted attachments p) /\
    get_attach_by_id attachments (attach_id fmt) = Ok atch /\
    Format_get (format fmt) = Some pf /\
    Format_validate_fields pf PRES_20_REQUEST (content atch) = Some reason.
Proof.
  induction formats as [| fmt rest IH].
  - left. intros fmt [].
  - assert (Hdec : accepted attachments fmt \/
              exists atch pf reason,
                get_attach_by_id attachments (attach_id fmt) = Ok atch /\
                Format_get (format fmt) = Some pf /\
                Format_validate_fields pf PRES_20_REQUEST (content atch) =
                  Some reason).
    { unfold accepted.
      destruct (get_attach_by_id attachments (attach_id fmt)) as [atch | e];
        [| left; intros; discriminate].
      destruct (Format_get (format fmt)) as [pf |];
        [| left; intros; discriminate].
      destruct (Format_validate_fields pf PRES_20_REQUEST (content atch))
        as [reason |] eqn:V.
      - right. exists atch, pf, reason. auto.
      - left. intros atch' pf' [= <-] [= <-]. exact V. }
    destruct Hdec as [Hacc | (atch & pf & reason & G & K & V)].
    + destruct IH as [Hall | (pre & f & post & a & q & r & -> & Hpre & Hrest)].
      * left. intros f [<- | Hf]; auto.
      * right. exists (fmt :: pre), f, post, a, q, r.
        split; [reflexivity |]. split; [| exact Hrest].
        intros p [<- | Hp]; auto.
    + right. exists [], fmt, rest, atch, pf, reason.
      split; [reflexivity |]. split; [intros p [] | auto].
Qed.

(** The run over [pre ++ fmt :: post] when everything before [fmt] passes
    and [fmt]'s content is rejected. *)
Lemma validate_loop_rejected (attachments : list Attach)
    (pre post : list V20PresFormat) (fmt : V20PresFormat) (atch : Attach)
    (pf : Format) (reason : string) (log : list event) :
  (forall p, In p pre -> passes attachments p) ->
  get_attach_by_id attachments (attach_id fmt) = Ok atch ->
  Format_get (format fmt) = Some pf ->
  Format_validate_fields pf PRES_20_REQUEST (content atch) = Some reason ->
  snd (validate_loop attachments (pre ++ fmt :: post) log) =
    Raise (FormatValidationError pf reason) /\
  lookups (fst (validate_loop attachments (pre ++ fmt :: post) log)) =
    lookups log ++ map attach_id pre ++ [attach_id fmt].
Proof.
  intros Hpre Hget Hknown Hrej.
  assert (Hok : snd (validate_loop attachments pre log) = Ok tt)
    by now apply validate_loop_accepting.
  pose proof (validate_loop_Ok_lookups _ _ _ Hok) as Hlook.
  rewrite validate_loop_app.
  destruct (validate_loop attachments pre log) as [log' r].
  simpl in Hok, Hlook. subst r. rewrite validate_loop_cons.
  unfold validate_one_cases. rewrite Hget, Hknown, Hrej. simpl.
  split; [reflexivity |].
  rewrite !lookups_app, Hlook. simpl.
  now rewrite ?app_nil_r, <- ?app_assoc.
Qed.

(** C3, as the code has it.  Let the two sequences have the same length and
    every descriptor's [attach_id] be the identifier of exactly one
    attachment.  Then no run raises the length-mismatch or the
    missing-attachment error.  If every content of a known format is accepted
    by its validator, the run returns and has bound every one of the
    [len(formats)] descriptors, in order.  If a validator rejects a content,
    the run has bound the descriptors up to and including that one and no
    later one, and ends in that validator's error.  One of the two is always
    the case, and every descriptor's lookup, when it is made, finds an
    attachment of the message with its identifier. *)
Theorem correlation_binds_until_rejected (data : SchemaData)
    (log : list event) :
  let formats := or_empty (data_formats data) in
  let attachments := or_empty (data_request_presentations_attach data) in
  List.length formats = List.length attachments ->
  (forall fmt, In fmt formats -> count_ident attachments (attach_id fmt) = 1) ->
  let final := validate_fields data log in
  (forall msg, snd final <> Raise (ValidationError msg)) /\
  ((forall fmt, In fmt formats -> accepted attachments fmt) ->
   snd final = Ok tt /\
   lookups (fst final) = lookups log ++ map attach_id formats) /\
  (forall pre fmt post atch pf reason,
     formats = pre ++ fmt :: post ->
     (forall p, In p pre -> accepted attachments p) ->
     get_attach_by_id attachments (attach_id fmt) = Ok atch ->
     Format_get (format fmt) = Some pf ->
     Format_validate_fields pf PRES_20_REQUEST (content atch) = Some reason ->
     snd final = Raise (FormatValidationError pf reason) /\
     lookups (fst final) =
       lookups log ++ map attach_id pre ++ [attach_id fmt]) /\
  ((forall fmt, In fmt formats -> accepted attachments fmt) \/
   exists pre fmt post atch pf reason,
     formats = pre ++ fmt :: post /\
     (forall p, In p pre -> accepted attachments p) /\
     get_attach_by_id attachments (attach_id fmt) = Ok atch /\
     Format_get (format fmt) = Some pf /\
     Format_validate_fields pf PRES_20_REQUEST (content atch) = Some reason) /\
  (forall fmt, In fmt formats ->
     exists atch,
       get_attach_by_id attachments (attach_id fmt) = Ok atch /\
       In atch attachments /\ ident atch = attach_id fmt).
Proof.
  intros formats attachments Hlen Hone final.
  assert (Hres : forall fmt, In fmt formats ->
            exists atch, get_attach_by_id attachments (attach_id fmt) = Ok atch).
  { intros fmt Hin. apply get_attach_by_id_counted.
    rewrite (Hone fmt Hin). discriminate. }
  assert (Hrun : final = validate_loop attachments formats log).
  { unfold final, validate_fields. fold formats attachments.
    apply Nat.eqb_eq in Hlen. now rewrite Hlen. }
  rewrite Hrun.
  split; [| split; [| split; [| split]]].
  - intros msg. now apply validate_loop_no_schema_error.
  - intros Hacc.
    assert (Hok : snd (validate_loop attachments formats log) = Ok tt).
    { apply validate_loop_accepting. intros p Hp.
      apply passes_of_accepted; auto. }
    split; [exact Hok | now apply validate_loop_Ok_lookups].
  - intros pre fmt post atch pf reason Hsplit Hpre Hget Hknown Hrej.
    rewrite Hsplit.
    apply (validate_loop_rejected attachments pre post fmt atch pf reason log);
      auto.
    intros p Hp. apply passes_of_accepted; [| now apply Hpre].
    apply Hres. rewrite Hsplit. apply in_or_app. now left.
  - apply accepted_or_first_rejected.
  - intros fmt Hin. destruct (Hres fmt Hin) as [atch Hget].
    exists atch. split; [exact Hget |].
    exact (get_attach_by_id_Ok _ _ _ Hget).
Qed.

(** C5.  A descriptor whose format the registry does not know is skipped:
    its iteration hands nothing to any validator, and it ends as its
    attachment lookup ends, so the unknown format itself never fails the
    run.  Over a whole run the validator calls made are, in order, calls
    owed to descriptors with a known format and to no other; a run that
    returns has made exactly those calls, one per descriptor with a known
    format; when every descriptor passes, the run does return; and an error
    from a format validator always belongs to a descriptor whose format the
    registry knows. *)
Theorem validators_called_for_known_formats (data : SchemaData)
    (log : list event) :
  let formats := or_empty (data_formats data) in
  let attachments := or_empty (data_request_presentations_attach data) in
  let final := validate_fields data log in
  (forall fmt log0,
     Format_get (format fmt) = None ->
     dispatched (fst (validate_one attachments fmt log0)) = dispatched log0 /\
     snd (validate_one attachments fmt log0) =
       match get_attach_by_id attachments (attach_id fmt) with
       | Ok _ => Ok tt
       | Raise e => Raise e
       end) /\
  (exists rest,
     dispatched log ++ known_dispatches attachments formats =
     dispatched (fst final) ++ rest) /\
  (snd final = Ok tt ->
     dispatched (fst final) =
       dispatched log ++ known_dispatches attachments formats /\
     List.length (known_dispatches attachments formats) =
       List.length
         (filter (fun fmt => truthy (Format_get (format fmt))) formats)) /\
  (List.length formats = List.length attachments ->
   (forall fmt, In fmt formats -> passes attachments fmt) ->
   snd final = Ok tt) /\
  (forall pf reason,
     snd final = Raise (FormatValidationError pf reason) ->
     exists fmt atch,
       In fmt formats /\ Format_get (format fmt) = Some pf /\
       get_attach_by_id attachments (attach_id fmt) = Ok atch /\
       Format_validate_fields pf PRES_20_REQUEST (content atch) = Some reason).
Proof.
  intros formats attachments final.
  split.
  { intros fmt log0 Hunknown. rewrite validate_one_eq.
    unfold validate_one_cases. rewrite Hunknown.
    destruct (get_attach_by_id attachments (attach_id fmt)); simpl;
      rewrite dispatched_app; simpl; now rewrite app_nil_r. }
  unfold final, validate_fields. fold formats attachments.
  destruct (Nat.eqb (List.length formats) (List.length attachments)) eqn:E;
    cbv beta iota delta [negb].
  - split; [apply validate_loop_dispatched_prefix |].
    split; [| split; [| apply validate_loop_format_error]].
    + intros Hok. split; [now apply validate_loop_Ok_dispatched |].
      apply known_dispatches_length.
      exact (validate_loop_Ok_resolves _ _ _ Hok).
    + intros _ Hall. now apply validate_loop_accepting.
  - split; [exists (known_dispatches attachments formats); reflexivity |].
    split; [discriminate |]. split; [| discriminate].
    intros Hlen. apply Nat.eqb_neq in E. contradiction.
Qed.

End RunProperties.

(** ** Repeated validation against a registry with state *)

Section RepeatedValidation.

Context {registry : FormatRegistry} {state : RegistryState registry}.



(** The run over a registry that answers as [registry] does ends as the run
    of [validate_fields] ends. *)
Lemma validate_loop_in_refines (attachments : list Attach)
    (formats : list V20PresFormat) (s : Store) (log : list event) :
  answers_as_registry ->
  snd (validate_loop_in attachments formats s) =
  snd (validate_loop attachments formats log).
Proof.
  intros [Hget Hval]. revert s log.
  induction formats as [| fmt rest IH]; intros s log; [reflexivity |].
  rewrite validate_loop_cons. unfold validate_one_cases.
  simpl. unfold st_bind, validate_one_in, st_bind, st_lift,
    call_Format_get_in, call_validate_fields_in, st_ret.
  destruct (get_attach_by_id attachments (attach_id fmt)) as [atch | e];
    [| reflexivity].
  rewrite (Hget (format fmt) s).
  destruct (Format_get (format fmt)) as [pf |]; [| apply IH].
  rewrite Hval.
  destruct (Format_validate_fields pf PRES_20_REQUEST (content atch));
    [reflexivity | apply IH].
Qed.

Lemma validate_fields_in_refines (data : SchemaData) (s : Store)
    (log : list event) :
  answers_as_registry ->
  snd (validate_fields_in data s) = snd (validate_fields data log).
Proof.
  intros H. unfold validate_fields_in, validate_fields.
  destruct (negb _); [reflexivity | now apply validate_loop_in_refines].
Qed.


End RepeatedValidation.

(** C3 fails as stated: the lengths agree and each descriptor names exactly
    one attachment, yet the run stops at the rejected content of [a1] and
    never binds the second descriptor: one lookup is made, not two. *)
Lemma second_descriptor_never_bound :
  List.length (or_empty (data_formats Demo.data_rejected_first)) =
    List.length
      (or_empty (data_request_presentations_attach Demo.data_rejected_first)) /\
  (forall fmt, In fmt Demo.fs_rejected_first ->
     count_ident Demo.atts_rejected_first (attach_id fmt) = 1) /\
  run_validate Demo.data_rejected_first =
    ([Call_get_attach_by_id "a1";
      Call_validate_fields (registry := Demo.registry) Demo.KNOWN
        PRES_20_REQUEST Demo.bad],
     Raise (FormatValidationError (registry := Demo.registry) Demo.KNOWN
              "Missing required key name")) /\
  lookups (fst (run_validate Demo.data_rejected_first)) = ["a1"] /\
  lookups (fst (run_validate Demo.data_rejected_first)) <>
    map attach_id Demo.fs_rejected_first.
Proof.
  repeat split.
  - intros fmt [<- | [<- | []]]; reflexivity.
  - discriminate.
Qed.

(** The same message: the run stops at [a1], as the theorem says. *)
Lemma correlation_binds_until_rejected_witness :
  snd (validate_fields Demo.data_rejected_first []) =
    Raise (FormatValidationError (registry := Demo.registry) Demo.KNOWN
             "Missing required key name") /\
  lookups (fst (validate_fields Demo.data_rejected_first [])) = ["a1"].
Proof.
  assert (Hone : forall fmt, In fmt Demo.fs_rejected_first ->
            count_ident Demo.atts_rejected_first (attach_id fmt) = 1).
  { intros fmt [<- | [<- | []]]; reflexivity. }
  destruct (correlation_binds_until_rejected Demo.data_rejected_first []
              eq_refl Hone) as (_ & _ & Hrej & _).
  refine (Hrej [] (Demo.fmt "a1" "known/1.0") [Demo.fmt "a2" "known/1.0"]
            (Demo.atch "a1" Demo.bad) Demo.KNOWN "Missing required key name"
            eq_refl _ eq_refl eq_refl eq_refl).
  intros p [].
Defined.

(** An unknown format ahead of a known one: one validator call in all. *)
Lemma validators_called_for_known_formats_witness :
  snd (validate_fields (Demo.data Demo.fs_mixed Demo.atts_mixed) []) = Ok tt /\
  dispatched (fst (validate_fields (Demo.data Demo.fs_mixed Demo.atts_mixed) [])) =
    [(Demo.KNOWN, Demo.good)].
Proof.
  destruct (validators_called_for_known_formats
              (Demo.data Demo.fs_mixed Demo.atts_mixed) [])
    as (_ & _ & Hexact & Hok & _).
  assert (Hpass : forall fmt, In fmt Demo.fs_mixed ->
            passes Demo.atts_mixed fmt).
  { intros fmt [<- | [<- | []]].
    - exists (Demo.atch "a1" Demo.bad). split; [reflexivity |].
      intros pf H. discriminate H.
    - exists (Demo.atch "a2" Demo.good). split; [reflexivity |].
      intros pf _. reflexivity. }
  split; [exact (Hok eq_refl Hpass) |].
  exact (proj1 (Hexact (Hok eq_refl Hpass))).
Defined.

(** The proviso is needed: against a registry whose answers change with the
    store, the same data passes from one store and is rejected from the
    other. *)
Lemma registry_state_matters :
  snd (validate_fields_in (state := DemoState.alternating)
         (Demo.data Demo.fs_mixed Demo.atts_mixed) false) = Ok tt /\
  snd (validate_fields_in (state := DemoState.alternating)
         (Demo.data Demo.fs_mixed Demo.atts_mixed) true) =
    Raise (FormatValidationError (registry := Demo.registry) Demo.KNOWN
             "rejected this time").
Proof. split; reflexivity. Qed.

